(** * Newsletter subscription and digest delivery (newsletterService.js)

    A shallow embedding of
    [Equora_AI_node_backend/src/services/newsletterService.js]:
    the subscriber file, [subscribeNewsletter], [unsubscribeNewsletter],
    [getNewsletterSubscribers], [sendWelcomeEmail] and [sendNewsletter],
    and of their callers: the three routes of the newsletter controller,
    the scheduled callback of scheduledTasks.js and the two scripts that
    start a run by hand.

    The asynchronous functions of the source are sequential chains of
    [await]; they are embedded in a small monad [M] that
    - reads the surroundings of one call ([Env]: process.env, the clock,
      the behaviour of the file system and of the mail transport),
    - threads the contents of the subscribers file ([Store]),
    - can raise a JavaScript exception ([Thrown]), caught by [tryCatch],
    - records the observable effects of the call ([Event]): writes of the
      file, calls of [transporter.sendMail], timers that were awaited and
      [console.error] lines. *)

From Stdlib Require Import NArith Ascii String DecimalString DecimalN.
From stdpp Require Import base option list strings.

Open Scope string_scope.
Open Scope list_scope.

(** ** Data model *)

(** A JSON value as it can sit in a field of a stored object. Only the
    [isActive] field is read through a strict comparison ([!== false]), so
    only that field is kept as a raw value. *)
Inductive JsValue :=
| JsNull
| JsBool (b : bool)
| JsNumber (n : Z)
| JsString (s : string).

Global Instance JsValue_eq_dec : EqDecision JsValue.
Proof. solve_decision. Defined.

(** Milliseconds since the epoch. [new Date().toISOString()] renders such a
    reading injectively, so a stored timestamp is kept as the reading. *)
Definition Timestamp := N.

(** One element of the array in newsletter-subscribers.json. Apart from
    [email] (the key every function reads) a field may be absent from the
    object: [None]. *)
Record Subscriber := {
  id : option string;
  email : string;
  name : option string;
  topics : option (list string);
  sources : option (list string);
  frequency : option string;
  isActive : option JsValue;
  createdAt : option Timestamp;
  updatedAt : option Timestamp;
}.

Global Instance Subscriber_eq_dec : EqDecision Subscriber.
Proof. solve_decision. Defined.

(** A JavaScript [Error] object, by its message. *)
Inductive Error := JsError (message : string).

Global Instance Error_eq_dec : EqDecision Error.
Proof. solve_decision. Defined.

(** The [mailOptions] object handed to [transporter.sendMail]; the constant
    [from.name] and the three priority headers are the same in every
    message and are left out. *)
Record MailOptions := {
  from_address : option string;
  to : string;
  subject : string;
  html : string;
}.

(** What [transporter.sendMail(mailOptions, callback)] does within the 30
    seconds the caller waits: it calls back with [info], calls back with an
    error, or has not called back when the timer fires. *)
Inductive SendOutcome :=
| SendInfo (messageId : string)
| SendError (error : Error)
| SendPending.

Global Instance MailOptions_eq_dec : EqDecision MailOptions.
Proof. solve_decision. Defined.

Global Instance SendOutcome_eq_dec : EqDecision SendOutcome.
Proof. solve_decision. Defined.

(** A transporter answers the [n]-th [sendMail] of one call. *)
Definition Transporter := nat → MailOptions → SendOutcome.

(** The surroundings of one call of an exported function. *)
Record Env := {
  EMAIL_TEST_MODE : option string;
  EMAIL_TEST_RECIPIENT : option string;
  EMAIL_USER : option string;
  (** reading of [new Date()] and of [Date.now()] *)
  now : Timestamp;
  (** [new Date().toLocaleDateString()]; the loop of [sendNewsletter] reads
      it anew for each recipient, the model once per call: a run is taken
      not to cross midnight *)
  localeDate : string;
  (** [fs.writeFile] (with the [mkdir] before it): [None] when it succeeds *)
  writeFailure : option Error;
  (** [nodemailer.createTransport(config)] *)
  createTransport : Error + Transporter;
  (** [generateNewsletterHtml(getMarketData())]; module dashboardData is not
      part of the sources, the digest is a page of text or an exception *)
  newsletterHtml : Error + string;
  (** the page [generateWelcomeEmailHtml] fills in, as a function of the
      greeting name and of the subscription *)
  welcomeTemplate : string → Subscriber → string;
}.

(** The subscribers file: [None] when it does not exist or cannot be read
    and parsed, [Some] of the array of records it holds otherwise. These are
    the contents the service itself produces ([saveSubscribers] writes
    arrays of records only); a file edited into valid JSON of another shape
    is outside the model. *)
Definition Store := option (list Subscriber).

(** Observable effects. A [sendMail] is recorded with the answer it got;
    of the console only the [console.error] lines that report an error are
    kept (the [console.log] lines and the banners are not). *)
Inductive Event :=
| EvWriteFile (subscribers : list Subscriber)
| EvSendMail (mailOptions : MailOptions) (answer : SendOutcome)
| EvTimer (ms : N)
| EvConsoleError (line : string) (error : Error).

Global Instance Event_eq_dec : EqDecision Event.
Proof. solve_decision. Defined.

(** ** The monad of one asynchronous call *)

Inductive Outcome (A : Type) :=
| Returned (a : A)
| Thrown (e : Error).
Arguments Returned {A} a.
Arguments Thrown {A} e.

Record Run (A : Type) := MkRun {
  value : Outcome A;
  store : Store;
  events : list Event;
}.
Arguments MkRun {A} _ _ _.
Arguments value {A} _.
Arguments store {A} _.
Arguments events {A} _.

Definition M (A : Type) : Type := Env → Store → Run A.

Definition ret {A} (a : A) : M A := λ _ st, MkRun (Returned a) st [].

Definition throw {A} (e : Error) : M A := λ _ st, MkRun (Thrown e) st [].

Definition bind {A B} (m : M A) (k : A → M B) : M B := λ env st,
  match m env st with
  | MkRun (Returned a) st1 ev1 =>
      match k a env st1 with
      | MkRun v st2 ev2 => MkRun v st2 (ev1 ++ ev2)
      end
  | MkRun (Thrown e) st1 ev1 => MkRun (Thrown e) st1 ev1
  end.

(** [try { m } catch (error) { h error }] *)
Definition tryCatch {A} (m : M A) (h : Error → M A) : M A := λ env st,
  match m env st with
  | MkRun (Returned a) st1 ev1 => MkRun (Returned a) st1 ev1
  | MkRun (Thrown e) st1 ev1 =>
      match h e env st1 with
      | MkRun v st2 ev2 => MkRun v st2 (ev1 ++ ev2)
      end
  end.

Definition ask : M Env := λ env st, MkRun (Returned env) st [].

Definition emit (ev : Event) : M unit := λ _ st, MkRun (Returned tt) st [ev].

Notation "x <- m ;; k" := (bind m (λ x, k))
  (at level 100, m at next level, right associativity).
Notation "m ;;; k" := (bind m (λ _, k))
  (at level 100, right associativity).

(** [console.error(line, error)] *)
Definition consoleError (line : string) (error : Error) : M unit :=
  emit (EvConsoleError line error).

(** [await new Promise(resolve => setTimeout(resolve, ms))] *)
Definition delay (ms : N) : M unit := emit (EvTimer ms).

(** ** The subscriber file *)

(** [JSON.parse(await fs.readFile(SUBSCRIBERS_FILE, 'utf-8'))]. A call
    that fails to read a file holding records is [duringReadFailure]
    below. *)
Definition readFile : M (list Subscriber) := λ _ st,
  match st with
  | Some subscribers => MkRun (Returned subscribers) st []
  | None => MkRun (Thrown (JsError "ENOENT")) st []
  end.

(** [await fs.writeFile(SUBSCRIBERS_FILE, JSON.stringify(subscribers))] *)
Definition writeFile (subscribers : list Subscriber) : M unit := λ env st,
  match writeFailure env with
  | None => MkRun (Returned tt) (Some subscribers) [EvWriteFile subscribers]
  | Some e => MkRun (Thrown e) st []
  end.

Definition loadSubscribers : M (list Subscriber) :=
  tryCatch readFile (λ _, ret []).

Definition saveSubscribers (subscribers : list Subscriber) : M unit :=
  writeFile subscribers.

(** [subscribers.findIndex(sub => sub.email === email)] together with the
    element at that index: [Some (i, subscribers[i])] for the first match,
    [None] for -1. *)
Definition findIndex (e : string) (subscribers : list Subscriber)
  : option (nat * Subscriber) :=
  list_find (λ sub, email sub = e) subscribers.

(** ** Subscription service *)

(** The argument object of [subscribeNewsletter]; an absent property is
    [None] and takes the default of the destructuring pattern. *)
Record SubscribeParams := {
  p_email : string;
  p_name : option string;
  p_topics : option (list string);
  p_sources : option (list string);
  p_frequency : option string;
}.

(** Truthiness of a string-or-undefined value: defined and not empty. *)
Definition truthy (v : option string) : bool :=
  match v with
  | Some s => bool_decide (s ≠ "")
  | None => false
  end.

(** [process.env.EMAIL_TEST_MODE === 'true'] *)
Definition testMode (env : Env) : bool :=
  bool_decide (EMAIL_TEST_MODE env = Some "true").

(** [`${n}`] for a non-negative integer. *)
Definition decimal (n : N) : string := NilEmpty.string_of_uint (N.to_uint n).

(** [s.split(' ')[0]] *)
Fixpoint firstWord (s : string) : string :=
  match s with
  | EmptyString => EmptyString
  | String c rest =>
      if bool_decide (c = " "%char) then EmptyString else String c (firstWord rest)
  end.

(** [subscription.name ? subscription.name.split(' ')[0] : 'there'] goes into
    the page. *)
Definition generateWelcomeEmailHtml (env : Env) (subscription : Subscriber)
  : string :=
  let firstName :=
    if truthy (name subscription)
    then firstWord (default "" (name subscription))
    else "there" in
  welcomeTemplate env firstName subscription.

Definition createEmailTransporter : M Transporter :=
  env <- ask ;;
  match createTransport env with
  | inr transporter => ret transporter
  | inl error =>
      consoleError "Error creating email transporter:" error ;;;
      throw error
  end.

(** The promise both senders build around [transporter.sendMail]: a 30 s
    timer races the callback. [n] counts the earlier [sendMail] calls. The
    two senders differ in the lines they print. The line of the timer is
    recorded with the error the timer rejects with. *)
Definition sendMailPromise (transporter : Transporter) (n : nat)
    (mailOptions : MailOptions) (timedOutLine failedLine : string) : M bool :=
  emit (EvSendMail mailOptions (transporter n mailOptions)) ;;;
  match transporter n mailOptions with
  | SendInfo _ => ret true
  | SendError error =>
      consoleError failedLine error ;;;
      throw error
  | SendPending =>
      emit (EvTimer 30000) ;;;
      let error := JsError "Email sending timed out" in
      consoleError timedOutLine error ;;;
      throw error
  end.

(** The subscription [sendWelcomeEmail] goes on with after its test-mode
    block: redirected to the test recipient, or [None] when it returns
    [true] at once ("just pretend we sent it"). *)
Definition welcomeTarget (env : Env) (subscription : Subscriber)
  : option Subscriber :=
  if testMode env then
    if truthy (EMAIL_TEST_RECIPIENT env) then
      Some {| id := id subscription;
              email := default "" (EMAIL_TEST_RECIPIENT env);
              name := name subscription;
              topics := topics subscription;
              sources := sources subscription;
              frequency := frequency subscription;
              isActive := isActive subscription;
              createdAt := createdAt subscription;
              updatedAt := updatedAt subscription |}
    else None
  else Some subscription.

(** The [mailOptions] of the welcome message. *)
Definition welcomeMail (env : Env) (subscription : Subscriber) : MailOptions :=
  {| from_address := EMAIL_USER env;
     to := email subscription;
     subject := "Welcome to Equora.AI Market Insights";
     html := generateWelcomeEmailHtml env subscription |}.

(** [sendWelcomeEmail]. The body of the source is one [try]; its last
    statement is [return new Promise(...)] without [await], so the [catch]
    of the function covers what runs before the promise is built, and a
    rejection of the promise reaches the caller. *)
Definition sendWelcomeEmail (subscription : Subscriber) : M bool :=
  env <- ask ;;
  match welcomeTarget env subscription with
  | None => ret true
  | Some subscription =>
      built <- tryCatch
        (transporter <- createEmailTransporter ;;
         let mailOptions := welcomeMail env subscription in
         ret (Some (transporter, mailOptions)))
        (λ error,
           consoleError
             ("Error sending welcome email to " +:+ email subscription +:+ ":")
             error ;;;
           ret None) ;;
      match built with
      | None => ret false
      | Some (transporter, mailOptions) =>
          sendMailPromise transporter 0 mailOptions
            ("Email sending timed out for " +:+ email subscription)
            "Error sending welcome email:"
      end
  end.

(** The object literal of the update branch:
    [{...subscribers[existingIndex], name, topics, sources, frequency,
      updatedAt: timestamp}]. *)
Definition updatedSubscription (params : SubscribeParams) (timestamp : Timestamp)
    (existing : Subscriber) : Subscriber :=
  {| id := id existing;
     email := email existing;
     name := p_name params;
     topics := Some (default [] (p_topics params));
     sources := Some (default [] (p_sources params));
     frequency := Some (default "daily" (p_frequency params));
     isActive := isActive existing;
     createdAt := createdAt existing;
     updatedAt := Some timestamp |}.

(** The object literal of the creation branch; [dateNow] is [Date.now()]. *)
Definition newSubscription (params : SubscribeParams) (timestamp : Timestamp)
    (dateNow : N) : Subscriber :=
  {| id := Some ("sub_" +:+ decimal dateNow);
     email := p_email params;
     name := p_name params;
     topics := Some (default [] (p_topics params));
     sources := Some (default [] (p_sources params));
     frequency := Some (default "daily" (p_frequency params));
     isActive := Some (JsBool true);
     createdAt := Some timestamp;
     updatedAt := Some timestamp |}.

Definition subscribeNewsletter (params : SubscribeParams) : M Subscriber :=
  tryCatch
    (subscribers <- loadSubscribers ;;
     let existingIndex := findIndex (p_email params) subscribers in
     env <- ask ;;
     let timestamp := now env in
     let '(subscription, subscribers) :=
       match existingIndex with
       | Some (i, existing) =>
           let subscription := updatedSubscription params timestamp existing in
           (subscription, <[i := subscription]> subscribers)
       | None =>
           let subscription := newSubscription params timestamp (now env) in
           (subscription, subscribers ++ [subscription])
       end in
     saveSubscribers subscribers ;;;
     (match existingIndex with
      | None =>
          tryCatch
            (sendWelcomeEmail subscription ;;; ret tt)
            (λ error,
               consoleError
                 ("Failed to send welcome email to " +:+ p_email params +:+ ":")
                 error)
      | Some _ => ret tt
      end) ;;;
     ret subscription)
    (λ error,
       consoleError "Error in subscription process:" error ;;;
       throw error).

Record UnsubscribeResult := {
  success : bool;
  message : string;
}.

(** The element after [subscribers[index].isActive = false] and
    [subscribers[index].updatedAt = new Date().toISOString()]. *)
Definition markedInactive (timestamp : Timestamp) (existing : Subscriber)
  : Subscriber :=
  {| id := id existing;
     email := email existing;
     name := name existing;
     topics := topics existing;
     sources := sources existing;
     frequency := frequency existing;
     isActive := Some (JsBool false);
     createdAt := createdAt existing;
     updatedAt := Some timestamp |}.

Definition notFound : UnsubscribeResult :=
  {| success := false; message := "Email not found in subscribers list" |}.

Definition unsubscribed : UnsubscribeResult :=
  {| success := true; message := "Successfully unsubscribed" |}.

Definition unsubscribeNewsletter (email_ : string) : M UnsubscribeResult :=
  subscribers <- loadSubscribers ;;
  match findIndex email_ subscribers with
  | None => ret notFound
  | Some (index, existing) =>
      env <- ask ;;
      saveSubscribers (<[index := markedInactive (now env) existing]> subscribers) ;;;
      ret unsubscribed
  end.

(** [sub.isActive !== false] *)
Definition notInactive (sub : Subscriber) : Prop :=
  isActive sub ≠ Some (JsBool false).

Global Instance notInactive_dec sub : Decision (notInactive sub).
Proof. unfold notInactive. apply _. Defined.

Definition getNewsletterSubscribers (activeOnly : bool)
  : M (list Subscriber) :=
  subscribers <- loadSubscribers ;;
  if activeOnly
  then ret (filter notInactive subscribers)
  else ret subscribers.

(** ** Delivery *)

(** The [mailOptions] of the digest for one subscriber. *)
Definition newsletterMail (env : Env) (newsletterHtml : string)
    (subscriber : Subscriber) : MailOptions :=
  {| from_address := EMAIL_USER env;
     to := email subscriber;
     subject := "Market Insights - " +:+ localeDate env;
     html := newsletterHtml |}.

(** The [for (const subscriber of subscribers)] loop of [sendNewsletter];
    [n] is the number of recipients already handled. The pause of one
    second is the last statement of the [try] block. *)
Fixpoint sendEach (transporter : Transporter) (newsletterHtml : string)
    (n : nat) (subscribers : list Subscriber) : M unit :=
  match subscribers with
  | [] => ret tt
  | subscriber :: rest =>
      tryCatch
        (env <- ask ;;
         let mailOptions := newsletterMail env newsletterHtml subscriber in
         sendMailPromise transporter n mailOptions
           ("Email sending timed out for " +:+ email subscriber)
           ("Failed to send newsletter to " +:+ email subscriber +:+ ":") ;;;
         delay 1000)
        (λ error,
           consoleError
             ("Error sending newsletter to " +:+ email subscriber +:+ ":")
             error) ;;;
      sendEach transporter newsletterHtml (S n) rest
  end.

(** [await generateNewsletterHtml(getMarketData())] *)
Definition generateNewsletterHtml : M string :=
  env <- ask ;;
  match newsletterHtml env with
  | inr page => ret page
  | inl error => throw error
  end.

(** The object pushed in test mode. *)
Definition testRecipient (address : string) : Subscriber :=
  {| id := None;
     email := address;
     name := Some "Test Recipient";
     topics := None;
     sources := None;
     frequency := None;
     isActive := Some (JsBool true);
     createdAt := None;
     updatedAt := None |}.

(** [specificEmail ? allSubscribers.filter(sub => sub.email === specificEmail)
                   : allSubscribers] *)
Definition selectSubscribers (specificEmail : option string)
    (allSubscribers : list Subscriber) : list Subscriber :=
  if truthy specificEmail
  then filter (λ sub, Some (email sub) = specificEmail) allSubscribers
  else allSubscribers.

(** The test-mode block of [sendNewsletter]: the array the loop will run
    over, or [None] when the function returns [true] there. *)
Definition testModeRecipients (env : Env) (subscribers : list Subscriber)
  : option (list Subscriber) :=
  if testMode env then
    if truthy (EMAIL_TEST_RECIPIENT env)
    then Some [testRecipient (default "" (EMAIL_TEST_RECIPIENT env))]
    else None
  else Some subscribers.

Definition sendNewsletter (specificEmail : option string) : M bool :=
  tryCatch
    (allSubscribers <- getNewsletterSubscribers true ;;
     let subscribers := selectSubscribers specificEmail allSubscribers in
     if bool_decide (length subscribers = 0) then ret true else
     env <- ask ;;
     match testModeRecipients env subscribers with
     | None => ret true
     | Some subscribers =>
         newsletterHtml <- generateNewsletterHtml ;;
         transporter <- createEmailTransporter ;;
         sendEach transporter newsletterHtml 0 subscribers ;;;
         ret true
     end)
    (λ error,
       consoleError "Error in newsletter sending process:" error ;;;
       ret false).

(** ** HTTP controller (newsletterController) *)

(** *** The pattern of the email check *)

(** The fragment of regular expressions the controller's pattern uses. A
    string is the sequence of its code units; an [ascii] stands for a code
    unit below 256. *)
Inductive Regex :=
| RNone
| REmpty
| RClass (accepts : ascii → bool)
| RAlt (r1 r2 : Regex)
| RSeq (r1 r2 : Regex)
| RStar (r : Regex).

(** [r+] *)
Definition RPlus (r : Regex) : Regex := RSeq r (RStar r).

Fixpoint nullable (r : Regex) : bool :=
  match r with
  | RNone => false
  | REmpty => true
  | RClass _ => false
  | RAlt r1 r2 => nullable r1 || nullable r2
  | RSeq r1 r2 => nullable r1 && nullable r2
  | RStar _ => true
  end.

(** What is left of [r] to match once [c] was read. *)
Fixpoint derive (c : ascii) (r : Regex) : Regex :=
  match r with
  | RNone => RNone
  | REmpty => RNone
  | RClass accepts => if accepts c then REmpty else RNone
  | RAlt r1 r2 => RAlt (derive c r1) (derive c r2)
  | RSeq r1 r2 =>
      if nullable r1
      then RAlt (RSeq (derive c r1) r2) (derive c r2)
      else RSeq (derive c r1) r2
  | RStar r1 => RSeq (derive c r1) (RStar r1)
  end.

Fixpoint matchesAll (r : Regex) (l : list ascii) : bool :=
  match l with
  | [] => nullable r
  | c :: rest => matchesAll (derive c r) rest
  end.

(** [/^r$/.test(s)] *)
Definition regexTest (r : Regex) (s : string) : bool :=
  matchesAll r (list_ascii_of_string s).

(** [\s] on code units below 256: tab, line feed, vertical tab, form feed,
    carriage return, space and no-break space. *)
Definition isWhitespace (c : ascii) : bool :=
  let n := N_of_ascii c in
  ((9 <=? n) && (n <=? 13) || (n =? 32) || (n =? 160))%N.

(** [[^\s@]] *)
Definition notSpaceNorAt (c : ascii) : bool :=
  negb (isWhitespace c) && negb (bool_decide (c = "@"%char)).

(** [/^[^\s@]+@[^\s@]+\.[^\s@]+$/] *)
Definition emailRegex : Regex :=
  RSeq (RPlus (RClass notSpaceNorAt))
    (RSeq (RClass (λ c, bool_decide (c = "@"%char)))
       (RSeq (RPlus (RClass notSpaceNorAt))
          (RSeq (RClass (λ c, bool_decide (c = "."%char)))
             (RPlus (RClass notSpaceNorAt))))).

(** *** Requests and responses *)

(** [req.body] of the subscribe route; an absent property is [None]. *)
Record SubscribeBody := {
  body_email : option string;
  body_name : option string;
  body_topics : option (list string);
  body_sources : option (list string);
  body_frequency : option string;
}.

(** The objects handed to [res.json]. *)
Inductive Json :=
| JsonError (error : string)
| JsonFailure (error : string) (details : string)
| JsonSubscribed (message : string) (subscription : Subscriber)
| JsonUnsubscribed (message : string) (result : UnsubscribeResult)
| JsonSubscribers (subscribers : list Subscriber) (count : nat).

(** [res.status(status).json(json)] *)
Record Response := {
  status : nat;
  json : Json;
}.

(** [error.message] *)
Definition errorMessage (error : Error) : string :=
  match error with JsError message => message end.

(** [exports.subscribe] *)
Definition subscribe (body : SubscribeBody) : M Response :=
  tryCatch
    (if negb (truthy (body_email body))
     then ret {| status := 400; json := JsonError "Email is required" |}
     else
       let email_ := default "" (body_email body) in
       if negb (regexTest emailRegex email_)
       then ret {| status := 400; json := JsonError "Invalid email format" |}
       else
         subscription <- subscribeNewsletter
           {| p_email := email_;
              p_name := body_name body;
              p_topics := Some (default [] (body_topics body));
              p_sources := Some (default [] (body_sources body));
              p_frequency :=
                Some (if truthy (body_frequency body)
                      then default "" (body_frequency body)
                      else "weekly") |} ;;
         ret {| status := 200;
                json := JsonSubscribed "Successfully subscribed to newsletter"
                          subscription |})
    (λ error,
       consoleError "Newsletter subscription error:" error ;;;
       ret {| status := 500;
              json := JsonFailure "Failed to subscribe to newsletter"
                        (errorMessage error) |}).

(** [exports.unsubscribe]; [address] is [req.body.email]. *)
Definition unsubscribe (address : option string) : M Response :=
  tryCatch
    (if negb (truthy address)
     then ret {| status := 400; json := JsonError "Email is required" |}
     else
       result <- unsubscribeNewsletter (default "" address) ;;
       ret {| status := 200;
              json := JsonUnsubscribed
                        "Successfully unsubscribed from newsletter" result |})
    (λ error,
       consoleError "Newsletter unsubscription error:" error ;;;
       ret {| status := 500;
              json := JsonFailure "Failed to unsubscribe from newsletter"
                        (errorMessage error) |}).

(** [exports.getSubscribers] *)
Definition getSubscribers : M Response :=
  tryCatch
    (subscribers <- getNewsletterSubscribers true ;;
     ret {| status := 200;
            json := JsonSubscribers subscribers (length subscribers) |})
    (λ error,
       consoleError "Error fetching newsletter subscribers:" error ;;;
       ret {| status := 500;
              json := JsonFailure "Failed to fetch newsletter subscribers"
                        (errorMessage error) |}).

(** ** Scheduler and scripts *)

(** The callback [scheduleNewsletterDelivery] registers with cron
    (scheduledTasks.js). *)
Definition scheduledDelivery : M unit :=
  tryCatch
    (sendNewsletter None ;;; ret tt)
    (λ error, consoleError "Error sending scheduled newsletter:" error).

(** [main] of scripts/sendNewsletter.js *)
Definition main : M unit :=
  tryCatch
    (subscribers <- getNewsletterSubscribers true ;;
     if bool_decide (length subscribers = 0) then ret tt
     else sendNewsletter None ;;; ret tt)
    (λ error, consoleError "Error in newsletter sending process:" error).

(** The daily script that takes an optional address on its command line:
    [sendNewsletter(process.argv[2] || null)], then [process.exit(0)] in
    [then] and [process.exit(1)] in [catch]. The value is the exit code. *)
Definition dailyNewsletterScript (argv2 : option string) : M nat :=
  let specificEmail := if truthy argv2 then argv2 else None in
  tryCatch
    (sendNewsletter specificEmail ;;; ret 0)
    (λ error,
       consoleError "Error in newsletter process:" error ;;;
       ret 1).

(** * Observations and scenarios *)

(** ** Observations on a run *)

(** The collection [loadSubscribers] returns on a store. *)
Definition stored (st : Store) : list Subscriber :=
  match st with
  | Some subscribers => subscribers
  | None => []
  end.

(** The store invariant: at most one record per email. *)
Definition uniqueEmails (st : Store) : Prop := NoDup (email <$> stored st).

Global Instance uniqueEmails_dec st : Decision (uniqueEmails st).
Proof. unfold uniqueEmails. apply _. Defined.

(** The messages handed to the transport, in order. *)
Definition sentMails (evs : list Event) : list MailOptions :=
  omap (λ ev, match ev with EvSendMail m _ => Some m | _ => None end) evs.

(** The collections written to the file, in order. *)
Definition writes (evs : list Event) : list (list Subscriber) :=
  omap (λ ev, match ev with EvWriteFile l => Some l | _ => None end) evs.

(** The answers the transport gave, in order. *)
Definition answers (evs : list Event) : list SendOutcome :=
  omap (λ ev, match ev with EvSendMail _ a => Some a | _ => None end) evs.

Definition isDelivered (a : SendOutcome) : bool :=
  match a with SendInfo _ => true | _ => false end.

(** Recipients whose message the transport confirmed, and the others. *)
Definition succeeded (evs : list Event) : nat :=
  length (filter (λ a, isDelivered a = true) (answers evs)).

Definition failed (evs : list Event) : nat :=
  length (filter (λ a, isDelivered a = false) (answers evs)).

(** The one-second pauses that were awaited. *)
Definition pauses (evs : list Event) : nat :=
  length (filter (λ ev, ev = EvTimer 1000) evs).

(** One turn of the loop of [sendNewsletter], by the answer of the
    transport. *)
Definition turnEvents (env : Env) (page : string) (sub : Subscriber)
    (answer : SendOutcome) : list Event :=
  let mail := newsletterMail env page sub in
  EvSendMail mail answer ::
  match answer with
  | SendInfo _ => [EvTimer 1000]
  | SendError error =>
      [EvConsoleError ("Failed to send newsletter to " +:+ email sub +:+ ":") error;
       EvConsoleError ("Error sending newsletter to " +:+ email sub +:+ ":") error]
  | SendPending =>
      [EvTimer 30000;
       EvConsoleError ("Email sending timed out for " +:+ email sub)
         (JsError "Email sending timed out");
       EvConsoleError ("Error sending newsletter to " +:+ email sub +:+ ":")
         (JsError "Email sending timed out")]
  end.

(** A call of one of the four exported functions, and the store a
    sequence of calls leaves, each call in its own surroundings. *)
Inductive Call :=
| CallSubscribe (params : SubscribeParams)
| CallUnsubscribe (address : string)
| CallList (activeOnly : bool)
| CallSend (specificEmail : option string).

Definition storeAfter (call : Call) (env : Env) (st : Store) : Store :=
  match call with
  | CallSubscribe params => store (subscribeNewsletter params env st)
  | CallUnsubscribe address => store (unsubscribeNewsletter address env st)
  | CallList activeOnly => store (getNewsletterSubscribers activeOnly env st)
  | CallSend specificEmail => store (sendNewsletter specificEmail env st)
  end.

Definition storeAfterAll (calls : list (Call * Env)) (st : Store) : Store :=
  foldl (λ st '(call, env), storeAfter call env st) st calls.

(** ** Scenarios *)

(** Transports: one that confirms every message, one that rejects the
    messages to one address, one that never answers for one address. *)
Definition delivers : Transporter := λ _ _, SendInfo "<1@equora.ai>".

Definition rejects (address : string) : Transporter := λ _ mail,
  if bool_decide (to mail = address)
  then SendError (JsError "550 mailbox unavailable")
  else SendInfo "<1@equora.ai>".

Definition silentFor (address : string) : Transporter := λ _ mail,
  if bool_decide (to mail = address)
  then SendPending
  else SendInfo "<1@equora.ai>".

(** Production surroundings and test-mode surroundings with a test
    recipient. *)
Definition liveEnv (t : Transporter) : Env :=
  {| EMAIL_TEST_MODE := None;
     EMAIL_TEST_RECIPIENT := None;
     EMAIL_USER := Some "news@equora.ai";
     now := 1700000000000%N;
     localeDate := "11/14/2023";
     writeFailure := None;
     createTransport := inr t;
     newsletterHtml := inr "<html>digest</html>";
     welcomeTemplate := λ firstName _, "Hi " +:+ firstName +:+ "!" |}.

Definition laterEnv (t : Transporter) : Env :=
  {| EMAIL_TEST_MODE := None;
     EMAIL_TEST_RECIPIENT := None;
     EMAIL_USER := Some "news@equora.ai";
     now := 1700000360000%N;
     localeDate := "11/14/2023";
     writeFailure := None;
     createTransport := inr t;
     newsletterHtml := inr "<html>digest</html>";
     welcomeTemplate := λ firstName _, "Hi " +:+ firstName +:+ "!" |}.

Definition testEnv (t : Transporter) : Env :=
  {| EMAIL_TEST_MODE := Some "true";
     EMAIL_TEST_RECIPIENT := Some "qa@equora.ai";
     EMAIL_USER := Some "news@equora.ai";
     now := 1700000000000%N;
     localeDate := "11/14/2023";
     writeFailure := None;
     createTransport := inr t;
     newsletterHtml := inr "<html>digest</html>";
     welcomeTemplate := λ firstName _, "Hi " +:+ firstName +:+ "!" |}.

Definition request (address : string) (display : option string)
    (tags : list string) : SubscribeParams :=
  {| p_email := address;
     p_name := display;
     p_topics := Some tags;
     p_sources := None;
     p_frequency := None |}.

(** An active record as [subscribeNewsletter] creates it. *)
Definition member (address : string) : Subscriber :=
  newSubscription (request address None []) 1690000000000%N 1690000000000%N.

(** The record a first subscription of new@x.com creates in [liveEnv]. *)
Definition newcomer : Subscriber :=
  newSubscription (request "new@x.com" (Some "Nia") [])
    1700000000000%N 1700000000000%N.

Definition twoMembers : Store :=
  Some [member "a@x.com"; member "b@x.com"].

Definition fiveMembers : Store :=
  Some [member "r1@x.com"; member "r2@x.com"; member "r3@x.com";
        member "r4@x.com"; member "r5@x.com"].

Definition hundredMembers : Store :=
  Some ((λ k, member ("user" +:+ decimal (N.of_nat k) +:+ "@x.com")) <$> seq 0 100).

(** The reading of the batch report under test: some decoding of the
    returned boolean gives, for every run, the number of recipients that
    succeeded and the number that failed. *)
Definition reportsCounts (decode : bool → nat * nat) : Prop :=
  ∀ specificEmail env st b,
    value (sendNewsletter specificEmail env st) = Returned b →
    decode b = (succeeded (events (sendNewsletter specificEmail env st)),
                failed (events (sendNewsletter specificEmail env st))).

(** ** Further observations and scenarios *)

(** The value a run returned, if it returned. *)
Definition value_of {A} (r : Run A) : option A :=
  match value r with
  | Returned a => Some a
  | Thrown _ => None
  end.

(** The strings a regular expression denotes. *)
Inductive Matches : Regex → list ascii → Prop :=
| MatchesEmpty : Matches REmpty []
| MatchesClass accepts c : accepts c = true → Matches (RClass accepts) [c]
| MatchesAltL r1 r2 l : Matches r1 l → Matches (RAlt r1 r2) l
| MatchesAltR r1 r2 l : Matches r2 l → Matches (RAlt r1 r2) l
| MatchesSeq r1 r2 l1 l2 :
    Matches r1 l1 → Matches r2 l2 → Matches (RSeq r1 r2) (l1 ++ l2)
| MatchesStarNil r : Matches (RStar r) []
| MatchesStarCons r l1 l2 :
    Matches r l1 → Matches (RStar r) l2 → Matches (RStar r) (l1 ++ l2).

(** A part of an address: not empty, no whitespace, no at sign. *)
Definition addressPart (l : list ascii) : Prop :=
  l ≠ [] ∧ Forall (λ c, isWhitespace c = false ∧ c ≠ "@"%char) l.

(** The argument object the subscribe route hands to the service. *)
Definition subscribeArguments (body : SubscribeBody) : SubscribeParams :=
  {| p_email := default "" (body_email body);
     p_name := body_name body;
     p_topics := Some (default [] (body_topics body));
     p_sources := Some (default [] (body_sources body));
     p_frequency :=
       Some (if truthy (body_frequency body)
             then default "" (body_frequency body)
             else "weekly") |}.

(** Test mode with no test recipient. *)
Definition quietTestEnv : Env :=
  {| EMAIL_TEST_MODE := Some "true";
     EMAIL_TEST_RECIPIENT := None;
     EMAIL_USER := Some "news@equora.ai";
     now := 1700000000000%N;
     localeDate := "11/14/2023";
     writeFailure := None;
     createTransport := inr delivers;
     newsletterHtml := inr "<html>digest</html>";
     welcomeTemplate := λ firstName _, "Hi " +:+ firstName +:+ "!" |}.

(** Production surroundings in which the market data cannot be read. *)
Definition brokenDigestEnv : Env :=
  {| EMAIL_TEST_MODE := None;
     EMAIL_TEST_RECIPIENT := None;
     EMAIL_USER := Some "news@equora.ai";
     now := 1700000000000%N;
     localeDate := "11/14/2023";
     writeFailure := None;
     createTransport := inr delivers;
     newsletterHtml := inl (JsError "market data unavailable");
     welcomeTemplate := λ firstName _, "Hi " +:+ firstName +:+ "!" |}.


(** [newcomer] as [sendWelcomeEmail] redirects it in [testEnv]. *)
Definition testRedirected (subscription : Subscriber) : Subscriber :=
  default subscription (welcomeTarget (testEnv delivers) subscription).

(** A call during which the file cannot be read or parsed although it
    holds records. Each exported function reads the file once, first thing,
    through [loadSubscribers], whose [catch] turns every failure into the
    empty collection: the call computes what it computes on a missing file,
    and the file keeps its content unless the call writes it. *)
Definition duringReadFailure {A} (m : M A) : M A := λ env st,
  match m env None with
  | MkRun v st' evs =>
      MkRun v (match writes evs with [] => st | _ :: _ => st' end) evs
  end.

(** One step of a history: a call, its surroundings, and whether the call
    can read the file. *)
Record Step := {
  stepCall : Call;
  stepEnv : Env;
  stepReads : bool;
}.

Definition storeAfterStep (step : Step) (st : Store) : Store :=
  let env := stepEnv step in
  if stepReads step then storeAfter (stepCall step) env st
  else
    match stepCall step with
    | CallSubscribe params =>
        store (duringReadFailure (subscribeNewsletter params) env st)
    | CallUnsubscribe address =>
        store (duringReadFailure (unsubscribeNewsletter address) env st)
    | CallList activeOnly =>
        store (duringReadFailure (getNewsletterSubscribers activeOnly) env st)
    | CallSend specificEmail =>
        store (duringReadFailure (sendNewsletter specificEmail) env st)
    end.

Definition storeAfterHistory (history : list Step) (st : Store) : Store :=
  foldl (λ st step, storeAfterStep step st) st history.

(** * Properties *)

(** Closes a decidable closed proposition by evaluation. *)
Ltac by_evaluation := apply (bool_decide_unpack _); vm_compute; exact I.

(** ** The store operations, run *)

Lemma loadSubscribers_run env st :
  loadSubscribers env st = MkRun (Returned (stored st)) st [].
Proof. by destruct st. Qed.

Lemma findIndex_Some e l i x :
  findIndex e l = Some (i, x) → l !! i = Some x ∧ email x = e.
Proof. intros H. by apply list_find_Some in H as (? & ? & _). Qed.

Lemma findIndex_None e l :
  findIndex e l = None ↔ e ∉ email <$> l.
Proof.
  unfold findIndex. rewrite list_find_None, Forall_forall, list_elem_of_fmap.
  split.
  - intros H (x & -> & Hx). by apply (H x).
  - intros H x Hx He. apply H. by exists x.
Qed.

Lemma findIndex_is_Some e l :
  e ∈ email <$> l → is_Some (findIndex e l).
Proof.
  intros H. destruct (findIndex e l) eqn:E; [eauto|].
  by apply findIndex_None in E.
Qed.

Lemma unsubscribeNewsletter_run env st e :
  unsubscribeNewsletter e env st =
  match findIndex e (stored st) with
  | None => MkRun (Returned notFound) st []
  | Some (i, x) =>
      let l := <[i := markedInactive (now env) x]> (stored st) in
      match writeFailure env with
      | None => MkRun (Returned unsubscribed) (Some l) [EvWriteFile l]
      | Some err => MkRun (Thrown err) st []
      end
  end.
Proof.
  unfold unsubscribeNewsletter, bind. rewrite loadSubscribers_run.
  destruct (findIndex e (stored st)) as [[i x]|]; [|done].
  unfold saveSubscribers, writeFile; simpl.
  by destruct (writeFailure env).
Qed.

Lemma getNewsletterSubscribers_run activeOnly env st :
  getNewsletterSubscribers activeOnly env st =
  MkRun (Returned (if activeOnly then filter notInactive (stored st)
                   else stored st)) st [].
Proof.
  unfold getNewsletterSubscribers, bind. rewrite loadSubscribers_run.
  by destruct activeOnly.
Qed.

(** Replacing an element by one with the same email leaves the emails
    as they are. *)
Lemma emails_insert_same (l : list Subscriber) i x y :
  l !! i = Some x → email y = email x →
  email <$> <[i := y]> l = email <$> l.
Proof.
  intros Hi Hy. rewrite list_fmap_insert. apply list_insert_id.
  by rewrite list_lookup_fmap, Hi, Hy.
Qed.

(** With unique emails, the record of an email is the one at its index. *)
Lemma uniqueEmails_at (l : list Subscriber) i x r :
  NoDup (email <$> l) → l !! i = Some x → r ∈ l → email r = email x → r = x.
Proof.
  intros Hnd Hi Hr He. apply list_elem_of_lookup in Hr as [j Hj].
  assert (i = j) as ->; [|congruence].
  apply (NoDup_lookup (email <$> l) i j (email x)); [done| |].
  - by rewrite list_lookup_fmap, Hi.
  - by rewrite list_lookup_fmap, Hj, <- He.
Qed.

(** ** Unsubscribe and listing *)

(** C7. On a store holding no record (active or inactive) for the email,
    [unsubscribeNewsletter] yields the not-found result and performs no
    write: the store is the one before the call and the call has no effect
    at all. *)
Theorem unsubscribe_unknown_no_write env st e :
  e ∉ email <$> stored st →
  let r := unsubscribeNewsletter e env st in
  value r = Returned notFound ∧ success notFound = false ∧
  store r = st ∧ writes (events r) = [] ∧ events r = [].
Proof.
  intros H%findIndex_None. simpl.
  by rewrite unsubscribeNewsletter_run, H.
Qed.

(** C10. [getNewsletterSubscribers(true)] keeps exactly the stored records
    whose [isActive] is not the value [false]; in particular a record with no
    [isActive] field is listed. *)
Theorem active_list_keeps_all_but_false env st :
  ∃ every active,
    value (getNewsletterSubscribers false env st) = Returned every ∧
    value (getNewsletterSubscribers true env st) = Returned active ∧
    every = stored st ∧
    (∀ sub, sub ∈ active ↔ sub ∈ every ∧ isActive sub ≠ Some (JsBool false)) ∧
    (∀ sub, sub ∈ every → isActive sub = None → sub ∈ active).
Proof.
  exists (stored st), (filter notInactive (stored st)).
  rewrite !getNewsletterSubscribers_run. simpl.
  split_and!; [done..| |].
  - intros sub. rewrite list_elem_of_filter. unfold notInactive. tauto.
  - intros sub Hin Hnone. apply list_elem_of_filter. split; [|done].
    unfold notInactive. by rewrite Hnone.
Qed.

(** C8. On a store with unique emails that holds a record for the email,
    and with a writable file, [unsubscribeNewsletter] succeeds and keeps the
    record, now with [isActive = false] and [updatedAt] set to the time of
    the call; no record is dropped; the active listing has no record of that
    email and the full listing still has the record. *)
Theorem unsubscribe_soft_delete env env' st e :
  uniqueEmails st →
  e ∈ email <$> stored st →
  writeFailure env = None →
  let r := unsubscribeNewsletter e env st in
  ∃ kept active every,
    value r = Returned unsubscribed ∧
    email kept = e ∧
    isActive kept = Some (JsBool false) ∧
    updatedAt kept = Some (now env) ∧
    kept ∈ stored (store r) ∧
    length (stored (store r)) = length (stored st) ∧
    value (getNewsletterSubscribers true env' (store r)) = Returned active ∧
    (∀ sub, sub ∈ active → email sub ≠ e) ∧
    value (getNewsletterSubscribers false env' (store r)) = Returned every ∧
    kept ∈ every.
Proof.
  intros Hnd [[i x] Hf]%findIndex_is_Some Hw r. subst r.
  rewrite unsubscribeNewsletter_run, Hf, Hw. cbn [value store].
  apply findIndex_Some in Hf as [Hi He].
  set (y := markedInactive (now env) x).
  assert (y ∈ <[i := y]> (stored st)) as Hin.
  { apply list_elem_of_insert. by eapply lookup_lt_Some. }
  exists y, (filter notInactive (<[i := y]> (stored st))), (<[i := y]> (stored st)).
  rewrite !getNewsletterSubscribers_run. cbn [value store stored].
  split_and!; try done.
  - by rewrite length_insert.
  - intros sub [Hact Hsub]%list_elem_of_filter Hsame.
    assert (sub = y) as ->; [|by apply Hact].
    apply (uniqueEmails_at (<[i := y]> (stored st)) i); [| |done|].
    + unfold uniqueEmails in Hnd. by rewrite (emails_insert_same _ _ x).
    + apply list_lookup_insert_eq. by eapply lookup_lt_Some.
    + by rewrite Hsame.
Qed.

(** ** Subscribe, run *)

Lemma sendMailPromise_store t n m l1 l2 env st :
  store (sendMailPromise t n m l1 l2 env st) = st.
Proof. unfold sendMailPromise, bind. simpl. by destruct (t n m). Qed.

Lemma sendMailPromise_writes t n m l1 l2 env st :
  writes (events (sendMailPromise t n m l1 l2 env st)) = [].
Proof. unfold sendMailPromise, bind. simpl. by destruct (t n m). Qed.

Lemma sendWelcomeEmail_store sub env st :
  store (sendWelcomeEmail sub env st) = st.
Proof.
  unfold sendWelcomeEmail, bind. simpl.
  destruct (welcomeTarget env sub) as [target|]; [|done].
  unfold tryCatch, createEmailTransporter, bind. simpl.
  destruct (createTransport env) as [err|t]; simpl; [done|].
  pose proof (sendMailPromise_store t 0 (welcomeMail env target)
    ("Email sending timed out for " +:+ email target)
    "Error sending welcome email:" env st) as H.
  by destruct (sendMailPromise _ _ _ _ _ _ _).
Qed.

Lemma sendWelcomeEmail_writes sub env st :
  writes (events (sendWelcomeEmail sub env st)) = [].
Proof.
  unfold sendWelcomeEmail, bind. simpl.
  destruct (welcomeTarget env sub) as [target|]; [|done].
  unfold tryCatch, createEmailTransporter, bind. simpl.
  destruct (createTransport env) as [err|t]; simpl; [done|].
  pose proof (sendMailPromise_writes t 0 (welcomeMail env target)
    ("Email sending timed out for " +:+ email target)
    "Error sending welcome email:" env st) as H.
  by destruct (sendMailPromise _ _ _ _ _ _ _).
Qed.

Lemma subscribeNewsletter_existing env st params i x :
  findIndex (p_email params) (stored st) = Some (i, x) →
  subscribeNewsletter params env st =
  let sub := updatedSubscription params (now env) x in
  let l := <[i := sub]> (stored st) in
  match writeFailure env with
  | None => MkRun (Returned sub) (Some l) [EvWriteFile l]
  | Some err =>
      MkRun (Thrown err) st [EvConsoleError "Error in subscription process:" err]
  end.
Proof.
  intros Hf. unfold subscribeNewsletter, tryCatch, bind.
  rewrite loadSubscribers_run, Hf. simpl.
  unfold saveSubscribers, writeFile.
  by destruct (writeFailure env).
Qed.

Lemma subscribeNewsletter_new_unwritable env st params err :
  findIndex (p_email params) (stored st) = None →
  writeFailure env = Some err →
  subscribeNewsletter params env st =
  MkRun (Thrown err) st [EvConsoleError "Error in subscription process:" err].
Proof.
  intros Hf Hw. unfold subscribeNewsletter, tryCatch, bind.
  rewrite loadSubscribers_run, Hf. simpl.
  unfold saveSubscribers, writeFile.
  by rewrite Hw.
Qed.

(** A first subscription on a writable file: the record is appended and
    returned whatever [sendWelcomeEmail] does; the effects are the write,
    those of [sendWelcomeEmail] and, when that one rejects, one line on the
    console. *)
Lemma subscribeNewsletter_new env st params :
  findIndex (p_email params) (stored st) = None →
  writeFailure env = None →
  let sub := newSubscription params (now env) (now env) in
  let l := stored st ++ [sub] in
  let welcome := sendWelcomeEmail sub env (Some l) in
  subscribeNewsletter params env st =
  MkRun (Returned sub) (Some l)
    (EvWriteFile l :: events welcome ++
     match value welcome with
     | Returned _ => []
     | Thrown error =>
         [EvConsoleError
            ("Failed to send welcome email to " +:+ p_email params +:+ ":") error]
     end).
Proof.
  intros Hf Hw sub l welcome. unfold subscribeNewsletter, tryCatch, bind.
  rewrite loadSubscribers_run, Hf. simpl.
  unfold saveSubscribers, writeFile. rewrite Hw.
  fold sub l. pose proof (sendWelcomeEmail_store sub env (Some l)) as Hs.
  fold welcome in Hs. fold welcome.
  destruct welcome as [[b|error] st' evs]; simpl in *; subst st'.
  - by rewrite !app_nil_r.
  - by rewrite !app_nil_r.
Qed.

(** ** The store invariant *)

Lemma uniqueEmails_subscribe env st params :
  uniqueEmails st → uniqueEmails (store (subscribeNewsletter params env st)).
Proof.
  intros Hnd. destruct (findIndex (p_email params) (stored st)) as [[i x]|] eqn:Hf.
  - rewrite (subscribeNewsletter_existing _ _ _ i x Hf).
    apply findIndex_Some in Hf as [Hi _].
    destruct (writeFailure env); simpl; [done|].
    unfold uniqueEmails. simpl. by rewrite (emails_insert_same _ _ x).
  - destruct (writeFailure env) as [err|] eqn:Hw.
    + by rewrite (subscribeNewsletter_new_unwritable _ _ _ err Hf Hw).
    + rewrite (subscribeNewsletter_new _ _ _ Hf Hw).
      unfold uniqueEmails. simpl. rewrite fmap_app. simpl.
      apply NoDup_app. split_and!; [done| |apply NoDup_singleton].
      intros e He ->%list_elem_of_singleton. by apply findIndex_None in Hf.
Qed.

Lemma uniqueEmails_unsubscribe env st e :
  uniqueEmails st → uniqueEmails (store (unsubscribeNewsletter e env st)).
Proof.
  intros Hnd. rewrite unsubscribeNewsletter_run.
  destruct (findIndex e (stored st)) as [[i x]|] eqn:Hf; [|done].
  apply findIndex_Some in Hf as [Hi _].
  destruct (writeFailure env); simpl; [done|].
  unfold uniqueEmails. simpl. by rewrite (emails_insert_same _ _ x).
Qed.

Lemma length_unsubscribe env st e :
  length (stored (store (unsubscribeNewsletter e env st))) = length (stored st).
Proof.
  rewrite unsubscribeNewsletter_run.
  destruct (findIndex e (stored st)) as [[i x]|]; [|done].
  destruct (writeFailure env); simpl; [done|]. by rewrite length_insert.
Qed.

(** C9. The invariant "at most one record per email" holds after
    [subscribeNewsletter] and after [unsubscribeNewsletter] whenever it held
    before, whatever the surroundings of the call (an unwritable file, a
    failing welcome message); subscribe replaces in place when the email is
    stored and appends one record when it is not, unsubscribe inserts
    nothing. *)
Theorem unique_emails_preserved env st :
  uniqueEmails st →
  (∀ params,
     let r := subscribeNewsletter params env st in
     uniqueEmails (store r) ∧
     (p_email params ∈ email <$> stored st →
      length (stored (store r)) = length (stored st)) ∧
     (p_email params ∉ email <$> stored st →
      store r = st ∨ ∃ sub, stored (store r) = stored st ++ [sub])) ∧
  (∀ e,
     let r := unsubscribeNewsletter e env st in
     uniqueEmails (store r) ∧
     length (stored (store r)) = length (stored st)).
Proof.
  intros Hnd. split.
  - intros params r. subst r. split_and!.
    + by apply uniqueEmails_subscribe.
    + intros [[i x] Hf]%findIndex_is_Some.
      rewrite (subscribeNewsletter_existing _ _ _ i x Hf).
      destruct (writeFailure env); simpl; [done|]. by rewrite length_insert.
    + intros Hf%findIndex_None.
      destruct (writeFailure env) as [err|] eqn:Hw.
      * left. by rewrite (subscribeNewsletter_new_unwritable _ _ _ err Hf Hw).
      * right. rewrite (subscribeNewsletter_new _ _ _ Hf Hw). simpl. eauto.
  - intros e r. subst r. split.
    + by apply uniqueEmails_unsubscribe.
    + apply length_unsubscribe.
Qed.

(** ** Subscribing twice *)

Lemma filter_email_absent (l : list Subscriber) e :
  e ∉ email <$> l → filter (λ sub, email sub = e) l = [].
Proof.
  induction l as [|y l IH]; [done|]. rewrite fmap_cons, not_elem_of_cons.
  intros [Hy Hl]. rewrite filter_cons_False by done. by apply IH.
Qed.

(** With unique emails, filtering on the email of the record at index [i]
    yields that record alone. *)
Lemma filter_email_unique (l : list Subscriber) i x :
  NoDup (email <$> l) → l !! i = Some x →
  filter (λ sub, email sub = email x) l = [x].
Proof.
  revert i. induction l as [|y l IH]; intros i Hnd Hi; [done|].
  rewrite fmap_cons in Hnd. apply NoDup_cons in Hnd as [Hy Hnd].
  destruct i as [|i]; simpl in Hi.
  - injection Hi as ->. rewrite filter_cons_True by done. f_equal.
    by apply filter_email_absent.
  - rewrite filter_cons_False; [by apply (IH i)|].
    intros Hyx. apply Hy. rewrite Hyx.
    apply list_elem_of_fmap_2. by eapply list_elem_of_lookup_2.
Qed.

(** On a writable file a subscription is returned and stored under its
    email. *)
Lemma subscribeNewsletter_persisted env st params :
  writeFailure env = None →
  ∃ i sub l,
    value (subscribeNewsletter params env st) = Returned sub ∧
    store (subscribeNewsletter params env st) = Some l ∧
    l !! i = Some sub ∧ email sub = p_email params.
Proof.
  intros Hw. destruct (findIndex (p_email params) (stored st)) as [[i x]|] eqn:Hf.
  - rewrite (subscribeNewsletter_existing _ _ _ i x Hf), Hw. simpl.
    apply findIndex_Some in Hf as [Hi He].
    eexists i, _, _. split_and!; [done..| |done].
    apply list_lookup_insert_eq. by eapply lookup_lt_Some.
  - rewrite (subscribeNewsletter_new _ _ _ Hf Hw). simpl.
    eexists (length (stored st)), _, _. split_and!; [done..| |done].
    by rewrite lookup_app_r, Nat.sub_diag.
Qed.

(** C5. Two calls of [subscribeNewsletter] with the same email, on a store
    with unique emails and a writable file: the store then holds exactly one
    record for the email, the one the second call returns; it carries the
    second call's name, topics, sources and frequency, the id, [createdAt]
    and [isActive] of the record the first call returned, and [updatedAt]
    set to the time of the second call; the second call replaces in place
    and hands no message to the transport. *)
Theorem subscribe_twice_one_record env1 env2 st params1 params2 :
  uniqueEmails st →
  writeFailure env1 = None →
  writeFailure env2 = None →
  p_email params1 = p_email params2 →
  let r1 := subscribeNewsletter params1 env1 st in
  let r2 := subscribeNewsletter params2 env2 (store r1) in
  ∃ first second,
    value r1 = Returned first ∧
    value r2 = Returned second ∧
    filter (λ sub, email sub = p_email params2) (stored (store r2)) = [second] ∧
    name second = p_name params2 ∧
    topics second = Some (default [] (p_topics params2)) ∧
    sources second = Some (default [] (p_sources params2)) ∧
    frequency second = Some (default "daily" (p_frequency params2)) ∧
    id second = id first ∧
    createdAt second = createdAt first ∧
    isActive second = isActive first ∧
    updatedAt second = Some (now env2) ∧
    length (stored (store r2)) = length (stored (store r1)) ∧
    sentMails (events r2) = [].
Proof.
  intros Hnd Hw1 Hw2 Hsame r1 r2.
  pose proof (uniqueEmails_subscribe env1 st params1 Hnd) as Hnd1.
  destruct (subscribeNewsletter_persisted env1 st params1 Hw1)
    as (i & first & l1 & Hv1 & Hs1 & Hi & He).
  fold r1 in Hnd1, Hv1, Hs1. subst r2. rewrite Hs1 in *.
  unfold uniqueEmails in Hnd1. simpl in Hnd1.
  assert (is_Some (findIndex (p_email params2) (stored (Some l1))))
    as [[j y] Hf].
  { apply findIndex_is_Some. simpl. rewrite <- Hsame, <- He.
    apply list_elem_of_fmap_2. by eapply list_elem_of_lookup_2. }
  rewrite (subscribeNewsletter_existing _ _ _ j y Hf), Hw2.
  apply findIndex_Some in Hf as [Hj Hy]. simpl in Hj.
  assert (y = first) as ->.
  { apply (uniqueEmails_at l1 i first y Hnd1 Hi); [|congruence].
    by eapply list_elem_of_lookup_2. }
  set (second := updatedSubscription params2 (now env2) first).
  exists first, second. cbn [value store events stored].
  split_and!; try done.
  - rewrite <- Hy. change (email first) with (email second).
    apply (filter_email_unique _ j).
    + by rewrite (emails_insert_same _ _ first).
    + apply list_lookup_insert_eq. by eapply lookup_lt_Some.
  - by rewrite length_insert.
Qed.

(** ** A failing welcome message *)

(** [sendWelcomeEmail] resolves to [false] only through its own [catch],
    which prints the error. *)
Lemma sendWelcomeEmail_false_logged sub env st :
  value (sendWelcomeEmail sub env st) = Returned false →
  ∃ line error, EvConsoleError line error ∈ events (sendWelcomeEmail sub env st).
Proof.
  unfold sendWelcomeEmail, bind. simpl.
  destruct (welcomeTarget env sub) as [target|]; [|done].
  unfold tryCatch, createEmailTransporter, bind. simpl.
  destruct (createTransport env) as [err|t]; simpl.
  - intros _. eexists _, err. apply list_elem_of_here.
  - unfold sendMailPromise, bind. simpl.
    by destruct (t 0 (welcomeMail env target)).
Qed.

(** C6. A first subscription (email not stored) whose welcome message does
    not go through, be it a transport error, the 30 s timeout or a transport
    that cannot be created: [subscribeNewsletter] still returns the new
    active record, and the file holds the former collection followed by that
    record; nothing is thrown to the caller, the file is written once, before
    the welcome message, and the failure is printed on the console. *)
Theorem welcome_failure_keeps_subscription env st params :
  p_email params ∉ email <$> stored st →
  writeFailure env = None →
  let sub := newSubscription params (now env) (now env) in
  value (sendWelcomeEmail sub env (Some (stored st ++ [sub]))) ≠ Returned true →
  let r := subscribeNewsletter params env st in
  value r = Returned sub ∧
  email sub = p_email params ∧
  isActive sub = Some (JsBool true) ∧
  store r = Some (stored st ++ [sub]) ∧
  writes (events r) = [stored st ++ [sub]] ∧
  ∃ line error, EvConsoleError line error ∈ events r.
Proof.
  intros Hf%findIndex_None Hw sub Hfail r. subst r.
  rewrite (subscribeNewsletter_new _ _ _ Hf Hw). fold sub.
  cbn [value store events]. split_and!; try done.
  - pose proof (sendWelcomeEmail_writes sub env (Some (stored st ++ [sub]))) as H.
    unfold writes in *. cbn [omap list_omap]. rewrite omap_app, H.
    by destruct (value _).
  - destruct (value (sendWelcomeEmail sub env (Some (stored st ++ [sub]))))
      as [[|]|error] eqn:Hv; [done| |].
    + destruct (sendWelcomeEmail_false_logged _ _ _ Hv) as (line & error & Hin).
      exists line, error. rewrite app_nil_r. by apply list_elem_of_further.
    + eexists _, error. apply list_elem_of_further, elem_of_app. right.
      apply list_elem_of_here.
Qed.

(** ** Delivery, run *)

(** *** Counting over a list of events *)

Lemma sentMails_app evs1 evs2 :
  sentMails (evs1 ++ evs2) = sentMails evs1 ++ sentMails evs2.
Proof. apply omap_app. Qed.

Lemma answers_app evs1 evs2 :
  answers (evs1 ++ evs2) = answers evs1 ++ answers evs2.
Proof. apply omap_app. Qed.

Lemma answers_sentMails_length evs :
  length (answers evs) = length (sentMails evs).
Proof.
  induction evs as [|[] evs IH]; simpl; try done. by rewrite IH.
Qed.

Lemma succeeded_failed evs :
  succeeded evs + failed evs = length (sentMails evs).
Proof.
  rewrite <- answers_sentMails_length. unfold succeeded, failed.
  induction (answers evs) as [|a l IH]; [done|].
  destruct a; rewrite ?filter_cons_True, ?filter_cons_False by done;
    simpl; lia.
Qed.

Lemma pauses_app evs1 evs2 : pauses (evs1 ++ evs2) = pauses evs1 + pauses evs2.
Proof. unfold pauses. by rewrite filter_app, length_app. Qed.

Lemma succeeded_app evs1 evs2 :
  succeeded (evs1 ++ evs2) = succeeded evs1 + succeeded evs2.
Proof. unfold succeeded. by rewrite answers_app, filter_app, length_app. Qed.

Lemma sentMails_nil_no_send evs mail a :
  sentMails evs = [] → EvSendMail mail a ∉ evs.
Proof.
  induction evs as [|ev evs IH]; intros Hnil Hin.
  - by apply elem_of_nil in Hin.
  - apply elem_of_cons in Hin as [<-|Hin]; [done|].
    destruct ev; simpl in Hnil; try done; by apply IH.
Qed.

(** *** One turn of the loop *)

Lemma sentMails_turn env page sub a :
  sentMails (turnEvents env page sub a) = [newsletterMail env page sub].
Proof. by destruct a. Qed.

Lemma answers_turn env page sub a : answers (turnEvents env page sub a) = [a].
Proof. by destruct a. Qed.

Lemma pauses_turn env page sub a :
  pauses (turnEvents env page sub a) = succeeded (turnEvents env page sub a).
Proof. by destruct a. Qed.

(** *** The loop, for a given transporter and digest *)

Section Loop.

Variable t : Transporter.
Variable page : string.

Lemma sendEach_cons n sub rest env st :
  sendEach t page n (sub :: rest) env st =
  let r := sendEach t page (S n) rest env st in
  MkRun (value r) (store r)
    (turnEvents env page sub (t n (newsletterMail env page sub)) ++ events r).
Proof.
  cbn [sendEach]. unfold bind at 1. unfold tryCatch, bind, sendMailPromise.
  simpl. destruct (t n (newsletterMail env page sub)); simpl;
    by destruct (sendEach t page (S n) rest env st).
Qed.

(** The loop always runs to its end and leaves the file alone. *)
Lemma sendEach_completes subs : ∀ n env st,
  value (sendEach t page n subs env st) = Returned tt ∧
  store (sendEach t page n subs env st) = st.
Proof.
  induction subs as [|sub rest IH]; intros n env st; [done|].
  rewrite sendEach_cons. simpl. apply IH.
Qed.

(** Each recipient of the loop is handed to the transport, in order,
    whatever the answers. *)
Lemma sendEach_sentMails subs : ∀ n env st,
  sentMails (events (sendEach t page n subs env st)) =
  newsletterMail env page <$> subs.
Proof.
  induction subs as [|sub rest IH]; intros n env st; [done|].
  rewrite sendEach_cons. cbn [events].
  rewrite sentMails_app, sentMails_turn, IH. done.
Qed.

(** The [k]-th recipient of the loop gets the answer of the transport to
    its own message: no turn is skipped. *)
Lemma sendEach_answers subs : ∀ n env st k sub,
  subs !! k = Some sub →
  answers (events (sendEach t page n subs env st)) !! k =
  Some (t (n + k) (newsletterMail env page sub)).
Proof.
  induction subs as [|first rest IH]; intros n env st k sub Hk; [done|].
  rewrite sendEach_cons. cbn [events]. rewrite answers_app, answers_turn.
  destruct k as [|k]; simpl in *.
  - injection Hk as ->. by rewrite Nat.add_0_r.
  - rewrite (IH (S n) env st k sub Hk). do 2 f_equal. lia.
Qed.

(** The loop pauses once per confirmed message, and only then. *)
Lemma sendEach_pauses subs : ∀ n env st,
  pauses (events (sendEach t page n subs env st)) =
  succeeded (events (sendEach t page n subs env st)).
Proof.
  induction subs as [|sub rest IH]; intros n env st; [done|].
  rewrite sendEach_cons. cbn [events].
  by rewrite pauses_app, succeeded_app, pauses_turn, IH.
Qed.

(** Every message that was not confirmed leaves a line of the loop's
    [catch] on the console, with the recipient and the error. *)
Lemma sendEach_failure_logged subs : ∀ n env st mail a,
  EvSendMail mail a ∈ events (sendEach t page n subs env st) →
  match a with
  | SendInfo _ => True
  | SendError error =>
      EvConsoleError ("Error sending newsletter to " +:+ to mail +:+ ":") error
      ∈ events (sendEach t page n subs env st)
  | SendPending =>
      EvConsoleError ("Error sending newsletter to " +:+ to mail +:+ ":")
        (JsError "Email sending timed out")
      ∈ events (sendEach t page n subs env st)
  end.
Proof.
  induction subs as [|sub rest IH]; intros n env st mail a.
  { simpl. by intros ?%elem_of_nil. }
  rewrite sendEach_cons. cbn [events]. rewrite elem_of_app.
  intros [Hturn|Hrest].
  - assert (mail = newsletterMail env page sub ∧
            a = t n (newsletterMail env page sub)) as [-> ->].
    { unfold turnEvents in Hturn.
      apply elem_of_cons in Hturn as [[= -> ->]|Hturn]; [done|].
      destruct (t n _); repeat (apply elem_of_cons in Hturn as [[=]|Hturn]);
        by apply elem_of_nil in Hturn. }
    destruct (t n (newsletterMail env page sub)) eqn:Ha; [done| |];
      apply elem_of_app; left; unfold turnEvents; simpl;
      repeat first [apply list_elem_of_here | apply list_elem_of_further].
  - specialize (IH (S n) env st mail a Hrest).
    destruct a; [done| |]; apply elem_of_app; by right.
Qed.

End Loop.

(** *** The whole function *)

Lemma sendNewsletter_run specificEmail env st :
  sendNewsletter specificEmail env st =
  let subscribers :=
    selectSubscribers specificEmail (filter notInactive (stored st)) in
  if bool_decide (length subscribers = 0) then MkRun (Returned true) st [] else
  match testModeRecipients env subscribers with
  | None => MkRun (Returned true) st []
  | Some subscribers =>
      match newsletterHtml env with
      | inl error =>
          MkRun (Returned false) st
            [EvConsoleError "Error in newsletter sending process:" error]
      | inr page =>
          match createTransport env with
          | inl error =>
              MkRun (Returned false) st
                [EvConsoleError "Error creating email transporter:" error;
                 EvConsoleError "Error in newsletter sending process:" error]
          | inr t =>
              MkRun (Returned true) st
                (events (sendEach t page 0 subscribers env st))
          end
      end
  end.
Proof.
  unfold sendNewsletter, tryCatch. unfold bind at 1.
  rewrite getNewsletterSubscribers_run. cbn zeta.
  destruct (bool_decide _); [done|].
  unfold bind at 1. simpl.
  destruct (testModeRecipients env _) as [subs|]; [|done].
  unfold generateNewsletterHtml, createEmailTransporter, bind. simpl.
  destruct (newsletterHtml env) as [error|page]; simpl; [done|].
  destruct (createTransport env) as [error|t]; simpl; [done|].
  destruct (sendEach_completes t page subs 0 env st) as [Hv Hs].
  destruct (sendEach t page 0 subs env st) as [v st' evs]. simpl in *.
  subst. by rewrite app_nil_r.
Qed.

(** ** Test mode *)

(** C1, as the code has it. In test mode with a test recipient configured,
    [sendNewsletter] hands exactly one message to the transport, addressed
    to the test recipient, whenever at least one active subscriber was
    selected and the digest and the transporter were obtained; when no
    subscriber was selected it returns [true] before the test-mode block and
    nothing is sent; when the digest or the transporter raises, nothing is
    sent and it returns [false]. *)
Theorem test_mode_single_send specificEmail env st recipient :
  EMAIL_TEST_MODE env = Some "true" →
  EMAIL_TEST_RECIPIENT env = Some recipient →
  recipient ≠ "" →
  let selected :=
    selectSubscribers specificEmail (filter notInactive (stored st)) in
  let r := sendNewsletter specificEmail env st in
  (selected = [] → value r = Returned true ∧ events r = []) ∧
  (selected ≠ [] → ∀ page t,
     newsletterHtml env = inr page → createTransport env = inr t →
     value r = Returned true ∧
     sentMails (events r) = [newsletterMail env page (testRecipient recipient)] ∧
     to (newsletterMail env page (testRecipient recipient)) = recipient) ∧
  (selected ≠ [] →
     (∃ error, newsletterHtml env = inl error) ∨
     (∃ error, createTransport env = inl error) →
     value r = Returned false ∧ sentMails (events r) = []).
Proof.
  intros Hmode Hrec Hne selected r. subst r.
  rewrite sendNewsletter_run. fold selected. cbn zeta.
  assert (testModeRecipients env selected = Some [testRecipient recipient])
    as Htest.
  { unfold testModeRecipients, testMode. rewrite Hmode, Hrec. simpl.
    by rewrite bool_decide_eq_true_2 by done. }
  split_and!.
  - intros ->. done.
  - intros Hsel page t Hpage Ht.
    rewrite bool_decide_eq_false_2 by (by destruct selected).
    rewrite Htest, Hpage, Ht. cbn [value events].
    split_and!; [done| |done].
    rewrite sendEach_sentMails. done.
  - intros Hsel Hraise.
    rewrite bool_decide_eq_false_2 by (by destruct selected).
    rewrite Htest.
    destruct (newsletterHtml env) as [e1|page]; [done|].
    destruct (createTransport env) as [e2|t]; [done|].
    destruct Hraise as [[? [=]]|[? [=]]].
Qed.

(** C1 as stated fails for zero subscribers: test mode, a test recipient,
    an empty collection, and no message reaches the transport. *)
Lemma test_mode_zero_subscribers_no_send :
  EMAIL_TEST_MODE (testEnv delivers) = Some "true" ∧
  EMAIL_TEST_RECIPIENT (testEnv delivers) = Some "qa@equora.ai" ∧
  ¬ (∃ mail,
       sentMails (events (sendNewsletter None (testEnv delivers) (Some []))) = [mail] ∧
       to mail = "qa@equora.ai").
Proof.
  split_and!; [done..|]. intros (mail & Hsent & _). vm_compute in Hsent. done.
Qed.

Lemma test_mode_single_send_witness :
  EMAIL_TEST_MODE (testEnv delivers) = Some "true" ∧
  EMAIL_TEST_RECIPIENT (testEnv delivers) = Some "qa@equora.ai" ∧
  "qa@equora.ai" ≠ "" ∧
  length (stored hundredMembers) = 100 ∧
  sentMails (events (sendNewsletter None (testEnv delivers) hundredMembers)) =
    [newsletterMail (testEnv delivers) "<html>digest</html>"
       (testRecipient "qa@equora.ai")].
Proof.
  assert ("qa@equora.ai" ≠ "") as Hne by done.
  split_and!; [reflexivity..|done|reflexivity|].
  destruct (test_mode_single_send None (testEnv delivers) hundredMembers
              "qa@equora.ai" eq_refl eq_refl Hne) as (_ & Hsome & _).
  apply (Hsome ltac:(vm_compute; done) "<html>digest</html>" delivers eq_refl eq_refl).
Defined.

(** ** Isolation of failures *)

(** C2. Outside test mode, with the digest and the transporter obtained: if
    the message of the [i]-th selected recipient fails (the transport
    answers with an error or does not answer within the 30 s), the run still
    returns [true], every selected recipient was handed to the transport in
    order, and in particular each recipient after the [i]-th was. *)
Theorem failed_send_does_not_abort specificEmail env st page t i sub :
  testMode env = false →
  newsletterHtml env = inr page →
  createTransport env = inr t →
  let recipients :=
    selectSubscribers specificEmail (filter notInactive (stored st)) in
  recipients !! i = Some sub →
  isDelivered (t i (newsletterMail env page sub)) = false →
  let r := sendNewsletter specificEmail env st in
  value r = Returned true ∧
  answers (events r) !! i = Some (t i (newsletterMail env page sub)) ∧
  sentMails (events r) = newsletterMail env page <$> recipients ∧
  ∀ j later, i < j → recipients !! j = Some later →
    sentMails (events r) !! j = Some (newsletterMail env page later).
Proof.
  intros Hmode Hpage Ht recipients Hi _ r. subst r.
  rewrite sendNewsletter_run. fold recipients. cbn zeta.
  rewrite bool_decide_eq_false_2 by (by destruct recipients).
  unfold testModeRecipients. rewrite Hmode, Hpage, Ht. cbn [value events].
  rewrite sendEach_sentMails. split_and!; [done| |done|].
  - by rewrite (sendEach_answers _ _ _ 0 env st i sub Hi).
  - intros j later _ Hj. by rewrite list_lookup_fmap, Hj.
Qed.

Lemma failed_send_does_not_abort_witness :
  isDelivered (rejects "r3@x.com" 2
    (newsletterMail (liveEnv (rejects "r3@x.com")) "<html>digest</html>"
       (member "r3@x.com"))) = false ∧
  to <$> sentMails (events
    (sendNewsletter None (liveEnv (rejects "r3@x.com")) fiveMembers)) =
  ["r1@x.com"; "r2@x.com"; "r3@x.com"; "r4@x.com"; "r5@x.com"].
Proof.
  split; [reflexivity|].
  destruct (failed_send_does_not_abort None (liveEnv (rejects "r3@x.com"))
              fiveMembers "<html>digest</html>" (rejects "r3@x.com") 2
              (member "r3@x.com") eq_refl eq_refl eq_refl eq_refl eq_refl)
    as (_ & _ & -> & _).
  reflexivity.
Defined.

(** ** What the batch returns *)

(** The three ways a run of [sendNewsletter] ends: nothing to do, the
    preparation raised, or the loop ran. *)
Lemma sendNewsletter_cases specificEmail env st :
  let r := sendNewsletter specificEmail env st in
  store r = st ∧
  ((value r = Returned true ∧ events r = []) ∨
   (value r = Returned false ∧ sentMails (events r) = []) ∨
   (value r = Returned true ∧
    ∃ t page subs, events r = events (sendEach t page 0 subs env st))).
Proof.
  intros r. subst r. rewrite sendNewsletter_run. cbn zeta.
  destruct (bool_decide _); [by auto|].
  destruct (testModeRecipients env _) as [subs|]; [|by auto].
  destruct (newsletterHtml env) as [e1|page]; [by auto|].
  destruct (createTransport env) as [e2|t]; [by auto|].
  split; [done|]. right. right. split; [done|]. by exists t, page, subs.
Qed.

(** C3, as the code has it. On a subscribers file that is missing or holds
    an array of records, [sendNewsletter] returns a bare boolean and leaves
    the file alone; it never throws. It returns [false] exactly when at
    least one subscriber is selected, test mode does not suppress the run,
    and building the digest or creating the transporter raises; then
    nothing was sent and the error is printed. In every other case it
    returns [true]: with nothing selected or a run suppressed by test mode
    it has no effect at all, and otherwise the loop hands every recipient
    to the transport, in order, each getting the transport's answer to its
    own message, however many of them fail. The recipients handed to the
    transport split into confirmed and failed ones, and each failed one
    leaves a line on the console with its address and the error: counts and
    per-recipient detail are printed, not returned. *)
Theorem batch_returns_bare_boolean specificEmail env st :
  let selected :=
    selectSubscribers specificEmail (filter notInactive (stored st)) in
  let r := sendNewsletter specificEmail env st in
  let raised :=
    selected ≠ [] ∧
    is_Some (testModeRecipients env selected) ∧
    ((∃ error, newsletterHtml env = inl error) ∨
     (∃ error, createTransport env = inl error)) in
  store r = st ∧
  (value r = Returned false ↔ raised) ∧
  (value r = Returned true ↔ ¬ raised) ∧
  (value r = Returned false →
     sentMails (events r) = [] ∧
     ∃ error,
       EvConsoleError "Error in newsletter sending process:" error ∈ events r) ∧
  (selected = [] ∨ testModeRecipients env selected = None → events r = []) ∧
  (∀ recipients page t,
     selected ≠ [] →
     testModeRecipients env selected = Some recipients →
     newsletterHtml env = inr page →
     createTransport env = inr t →
     sentMails (events r) = newsletterMail env page <$> recipients ∧
     ∀ k sub, recipients !! k = Some sub →
       answers (events r) !! k = Some (t k (newsletterMail env page sub))) ∧
  (value r = Returned true ∨
   value r = Returned false ∧ sentMails (events r) = []) ∧
  succeeded (events r) + failed (events r) = length (sentMails (events r)) ∧
  (∀ mail error,
     EvSendMail mail (SendError error) ∈ events r →
     EvConsoleError ("Error sending newsletter to " +:+ to mail +:+ ":") error
     ∈ events r) ∧
  (∀ mail,
     EvSendMail mail SendPending ∈ events r →
     EvConsoleError ("Error sending newsletter to " +:+ to mail +:+ ":")
       (JsError "Email sending timed out") ∈ events r).
Proof.
  intros selected r raised. subst r raised.
  rewrite sendNewsletter_run. fold selected. cbn zeta.
  destruct (decide (selected = [])) as [Hsel|Hsel].
  { rewrite Hsel. cbn.
    split_and!; try done.
    - split; [done|]. by intros [? _].
    - split; [|done]. by intros _ [? _].
    - by left.
    - by intros ? ? ?%elem_of_nil.
    - by intros ? ?%elem_of_nil. }
  rewrite bool_decide_eq_false_2 by (by destruct selected).
  destruct (testModeRecipients env selected) as [recipients|] eqn:Htest.
  2:{ cbn [value store events].
      split_and!; try done.
      - split; [done|]. by intros (_ & [? [=]] & _).
      - split; [|done]. by intros _ (_ & [? [=]] & _).
      - by left.
      - by intros ? ? ?%elem_of_nil.
      - by intros ? ?%elem_of_nil. }
  destruct (newsletterHtml env) as [e1|page] eqn:Hpage.
  { cbn [value store events].
    split_and!; try done.
    - split; [|done]. intros _. split_and!; [done|by eexists|by left; eexists].
    - split; [done|]. intros Hn. destruct Hn. split_and!; [done|by eexists|by left; eexists].
    - intros _. split; [done|]. exists e1. apply list_elem_of_here.
    - by intros [?|?].
    - by right.
    - intros ? ? H. by apply sentMails_nil_no_send in H.
    - intros ? H. by apply sentMails_nil_no_send in H. }
  destruct (createTransport env) as [e2|t] eqn:Ht.
  { cbn [value store events].
    split_and!; try done.
    - split; [|done]. intros _. split_and!; [done|by eexists|by right; eexists].
    - split; [done|]. intros Hn. destruct Hn. split_and!; [done|by eexists|by right; eexists].
    - intros _. split; [done|]. exists e2.
      apply list_elem_of_further, list_elem_of_here.
    - by intros [?|?].
    - by right.
    - intros ? ? H. by apply sentMails_nil_no_send in H.
    - intros ? H. by apply sentMails_nil_no_send in H. }
  cbn [value store events].
  split_and!; try done.
  - split; [done|]. by intros (_ & _ & [[? [=]]|[? [=]]]).
  - split; [|done]. by intros _ (_ & _ & [[? [=]]|[? [=]]]).
  - by intros [?|?].
  - intros recipients' page' t' _ [= <-] [= <-] [= <-]. split.
    + apply sendEach_sentMails.
    + intros k sub Hk.
      by rewrite (sendEach_answers _ _ _ 0 env st k sub Hk).
  - by left.
  - apply succeeded_failed.
  - intros mail error H. apply (sendEach_failure_logged _ _ _ _ _ _ _ _ H).
  - intros mail H. apply (sendEach_failure_logged _ _ _ _ _ _ _ _ H).
Qed.

(** C3 as stated fails: for five subscribers of which the third always
    fails the run returns [true], the very value it returns when all five
    succeed; no reading of the returned value gives the counts. *)
Lemma returned_value_reports_no_counts :
  value (sendNewsletter None (liveEnv (rejects "r3@x.com")) fiveMembers)
    = Returned true ∧
  succeeded (events
    (sendNewsletter None (liveEnv (rejects "r3@x.com")) fiveMembers)) = 4 ∧
  failed (events
    (sendNewsletter None (liveEnv (rejects "r3@x.com")) fiveMembers)) = 1 ∧
  value (sendNewsletter None (liveEnv delivers) fiveMembers) = Returned true ∧
  succeeded (events (sendNewsletter None (liveEnv delivers) fiveMembers)) = 5 ∧
  failed (events (sendNewsletter None (liveEnv delivers) fiveMembers)) = 0 ∧
  ¬ (∃ decode, reportsCounts decode).
Proof.
  split_and!; [reflexivity..|]. intros [decode Hd].
  pose proof (Hd None (liveEnv (rejects "r3@x.com")) fiveMembers true eq_refl)
    as H1.
  pose proof (Hd None (liveEnv delivers) fiveMembers true eq_refl) as H2.
  vm_compute in H1, H2. congruence.
Qed.

(** ** Pacing *)

(** [sendNewsletter] pauses one second once per confirmed message, and only
    then. *)
Lemma sendNewsletter_pauses specificEmail env st :
  pauses (events (sendNewsletter specificEmail env st)) =
  succeeded (events (sendNewsletter specificEmail env st)).
Proof.
  rewrite sendNewsletter_run. cbn zeta.
  destruct (bool_decide _); [done|].
  destruct (testModeRecipients env _) as [subs|]; [|done].
  destruct (newsletterHtml env) as [e1|page]; [done|].
  destruct (createTransport env) as [e2|t]; [done|].
  apply sendEach_pauses.
Qed.

(** C4 at its failing input: two active subscribers, the transport rejects
    the message of the first. The rejected message is followed by the two
    console lines and at once by the message of the second subscriber; the
    only pause of the run follows the confirmed message. *)
Theorem failed_send_not_followed_by_pause :
  events (sendNewsletter None (liveEnv (rejects "a@x.com")) twoMembers) =
  [ EvSendMail
      (newsletterMail (liveEnv (rejects "a@x.com")) "<html>digest</html>"
         (member "a@x.com"))
      (SendError (JsError "550 mailbox unavailable"));
    EvConsoleError "Failed to send newsletter to a@x.com:"
      (JsError "550 mailbox unavailable");
    EvConsoleError "Error sending newsletter to a@x.com:"
      (JsError "550 mailbox unavailable");
    EvSendMail
      (newsletterMail (liveEnv (rejects "a@x.com")) "<html>digest</html>"
         (member "b@x.com"))
      (SendInfo "<1@equora.ai>");
    EvTimer 1000 ] ∧
  pauses (events (sendNewsletter None (liveEnv (rejects "a@x.com")) twoMembers))
    = 1 ∧
  length (sentMails
    (events (sendNewsletter None (liveEnv (rejects "a@x.com")) twoMembers))) = 2.
Proof. split_and!; reflexivity. Qed.

(** ** The invariant along any history *)

Lemma uniqueEmails_storeAfter call env st :
  uniqueEmails st → uniqueEmails (storeAfter call env st).
Proof.
  intros Hnd. destruct call as [params|address|activeOnly|specificEmail]; simpl.
  - by apply uniqueEmails_subscribe.
  - by apply uniqueEmails_unsubscribe.
  - by rewrite getNewsletterSubscribers_run.
  - by destruct (sendNewsletter_cases specificEmail env st) as [-> _].
Qed.

(** Starting without a file, every sequence of calls of the exported
    functions leaves a store with at most one record per email. *)
Lemma uniqueEmails_history calls :
  uniqueEmails (storeAfterAll calls None).
Proof.
  unfold storeAfterAll.
  assert (uniqueEmails None) as Hnd by apply NoDup_nil_2.
  revert Hnd. generalize (None : Store).
  induction calls as [|[call env] calls IH]; intros st Hnd; [done|].
  simpl. by apply IH, uniqueEmails_storeAfter.
Qed.

(** ** The theorems at concrete stores *)

Lemma unsubscribe_unknown_no_write_witness :
  ("nobody@x.com" ∉ email <$> stored None) ∧
  value (unsubscribeNewsletter "nobody@x.com" (liveEnv delivers) None)
    = Returned notFound ∧
  store (unsubscribeNewsletter "nobody@x.com" (liveEnv delivers) None) = None ∧
  events (unsubscribeNewsletter "nobody@x.com" (liveEnv delivers) None) = [].
Proof.
  assert ("nobody@x.com" ∉ email <$> stored None) as H by by_evaluation.
  split; [exact H|].
  destruct (unsubscribe_unknown_no_write (liveEnv delivers) None
              "nobody@x.com" H) as (Hv & _ & Hs & _ & He).
  by rewrite Hv, Hs, He.
Defined.

Lemma unsubscribe_soft_delete_witness :
  uniqueEmails twoMembers ∧
  ("a@x.com" ∈ email <$> stored twoMembers) ∧
  ∃ kept,
    kept ∈ stored (store
      (unsubscribeNewsletter "a@x.com" (laterEnv delivers) twoMembers)) ∧
    email kept = "a@x.com" ∧
    isActive kept = Some (JsBool false) ∧
    updatedAt kept = Some 1700000360000%N.
Proof.
  assert (uniqueEmails twoMembers) as Hnd by by_evaluation.
  assert ("a@x.com" ∈ email <$> stored twoMembers) as Hin by by_evaluation.
  split_and!; [exact Hnd|exact Hin|].
  destruct (unsubscribe_soft_delete (laterEnv delivers) (liveEnv delivers)
              twoMembers "a@x.com" Hnd Hin eq_refl)
    as (kept & _ & _ & _ & He & Ha & Hu & Hk & _).
  exists kept. by rewrite He, Ha, Hu.
Defined.

Lemma unique_emails_preserved_witness :
  uniqueEmails twoMembers ∧
  uniqueEmails (store (subscribeNewsletter
    (request "a@x.com" (Some "Ann") ["fx"]) (laterEnv delivers) twoMembers)) ∧
  uniqueEmails (store (subscribeNewsletter
    (request "c@x.com" None []) (laterEnv delivers) twoMembers)) ∧
  uniqueEmails (store
    (unsubscribeNewsletter "b@x.com" (laterEnv delivers) twoMembers)).
Proof.
  assert (uniqueEmails twoMembers) as Hnd by by_evaluation.
  destruct (unique_emails_preserved (laterEnv delivers) twoMembers Hnd)
    as [Hsub Hunsub].
  split_and!; [exact Hnd|apply Hsub..|apply Hunsub].
Defined.

Lemma subscribe_twice_one_record_witness :
  uniqueEmails None ∧
  ∃ second,
    filter (λ sub, email sub = "a@b.com")
      (stored (store
         (subscribeNewsletter (request "a@b.com" (Some "Ann Lee") ["energy"; "fx"])
            (laterEnv delivers)
            (store (subscribeNewsletter (request "a@b.com" (Some "Ann") ["tech"])
                      (liveEnv delivers) None))))) = [second] ∧
    name second = Some "Ann Lee" ∧
    topics second = Some ["energy"; "fx"] ∧
    updatedAt second = Some 1700000360000%N.
Proof.
  assert (uniqueEmails None) as Hnd by by_evaluation.
  split; [exact Hnd|].
  destruct (subscribe_twice_one_record (liveEnv delivers) (laterEnv delivers)
              None (request "a@b.com" (Some "Ann") ["tech"])
              (request "a@b.com" (Some "Ann Lee") ["energy"; "fx"])
              Hnd eq_refl eq_refl eq_refl)
    as (first & second & _ & _ & Hf & Hn & Ht & _ & _ & _ & _ & _ & Hu & _).
  exists second. split_and!; [exact Hf|exact Hn|exact Ht|exact Hu].
Defined.

Lemma welcome_failure_keeps_subscription_witness :
  ("new@x.com" ∉ email <$> stored twoMembers) ∧
  value (sendWelcomeEmail
           newcomer
           (liveEnv (silentFor "new@x.com"))
           (Some (stored twoMembers ++
                  [newcomer])))
    = Thrown (JsError "Email sending timed out") ∧
  value (subscribeNewsletter (request "new@x.com" (Some "Nia") [])
           (liveEnv (silentFor "new@x.com")) twoMembers)
    = Returned newcomer ∧
  length (stored (store
    (subscribeNewsletter (request "new@x.com" (Some "Nia") [])
       (liveEnv (silentFor "new@x.com")) twoMembers))) = 3.
Proof.
  assert ("new@x.com" ∉ email <$> stored twoMembers) as Hnew by by_evaluation.
  split_and!; [exact Hnew|reflexivity|..];
    destruct (welcome_failure_keeps_subscription
                (liveEnv (silentFor "new@x.com")) twoMembers
                (request "new@x.com" (Some "Nia") []) Hnew eq_refl
                ltac:(vm_compute; discriminate))
      as (Hv & _ & _ & Hs & _).
  - exact Hv.
  - by rewrite Hs.
Defined.

(** ** The round trip of the specification *)

(** subscribe, list, unsubscribe, list again: the record appears in the
    active listing, then only in the full listing, inactive. *)
Example round_trip :
  let st1 := store (subscribeNewsletter (request "a@b.com" None [])
                      (liveEnv delivers) None) in
  let st2 := store (unsubscribeNewsletter "a@b.com" (laterEnv delivers) st1) in
  email <$> stored st1 = ["a@b.com"] ∧
  value (getNewsletterSubscribers true (laterEnv delivers) st1)
    = Returned (stored st1) ∧
  value (getNewsletterSubscribers true (laterEnv delivers) st2) = Returned [] ∧
  (isActive <$> stored st2) = [Some (JsBool false)] ∧
  value (getNewsletterSubscribers false (laterEnv delivers) st2)
    = Returned (stored st2).
Proof. cbv zeta. split_and!; reflexivity. Qed.

(** * Further properties *)

(** ** Who receives the digest *)

(** X1. Test mode without a test recipient: [sendNewsletter] returns [true]
    without building the digest, creating a transporter or sending
    anything, whatever the store holds. *)
Theorem test_mode_without_recipient_sends_nothing specificEmail env st :
  EMAIL_TEST_MODE env = Some "true" →
  truthy (EMAIL_TEST_RECIPIENT env) = false →
  sendNewsletter specificEmail env st = MkRun (Returned true) st [].
Proof.
  intros Hmode Hrec. rewrite sendNewsletter_run. cbn zeta.
  destruct (bool_decide _); [done|].
  unfold testModeRecipients, testMode. rewrite Hmode, Hrec.
  by rewrite bool_decide_eq_true_2.
Qed.

Lemma test_mode_without_recipient_sends_nothing_witness :
  truthy (EMAIL_TEST_RECIPIENT quietTestEnv) = false ∧
  events (sendNewsletter None quietTestEnv fiveMembers) = [].
Proof.
  split; [reflexivity|].
  by rewrite (test_mode_without_recipient_sends_nothing None quietTestEnv
                fiveMembers eq_refl eq_refl).
Defined.

Lemma selectSubscribers_elem specificEmail (l : list Subscriber) sub :
  sub ∈ selectSubscribers specificEmail l →
  sub ∈ l ∧ (truthy specificEmail = true → specificEmail = Some (email sub)).
Proof.
  unfold selectSubscribers. destruct (truthy specificEmail).
  - intros [Hsame Hin]%list_elem_of_filter. split; [exact Hin|]. intros _. symmetry. exact Hsame.
  - intros Hin. by split.
Qed.

(** The messages of a run outside test mode go to the selected active
    subscribers, in their stored order. *)
Lemma sendNewsletter_sentMails_live specificEmail env st :
  testMode env = false →
  ∃ subs,
    sentMails (events (sendNewsletter specificEmail env st)) =
      (λ sub, newsletterMail env (match newsletterHtml env with
                                  | inr page => page
                                  | inl _ => ""
                                  end) sub) <$> subs ∧
    ∀ sub, sub ∈ subs →
      sub ∈ selectSubscribers specificEmail (filter notInactive (stored st)).
Proof.
  intros Hmode. rewrite sendNewsletter_run. cbn zeta.
  assert (∀ sub : Subscriber, sub ∈ [] →
    sub ∈ selectSubscribers specificEmail (filter notInactive (stored st)))
    as Hnil by (by intros ? ?%elem_of_nil).
  destruct (bool_decide _); [by exists []|].
  unfold testModeRecipients. rewrite Hmode.
  destruct (newsletterHtml env) as [e1|page]; [by exists []|].
  destruct (createTransport env) as [e2|t]; [by exists []|].
  cbn [events]. rewrite sendEach_sentMails. eauto.
Qed.

(** X2. Outside test mode every message of [sendNewsletter] is addressed to a
    stored record whose [isActive] is not [false]; with a [specificEmail],
    to that address only. *)
Theorem digest_only_to_active_subscribers specificEmail env st mail :
  testMode env = false →
  mail ∈ sentMails (events (sendNewsletter specificEmail env st)) →
  ∃ sub,
    sub ∈ stored st ∧
    isActive sub ≠ Some (JsBool false) ∧
    to mail = email sub ∧
    (truthy specificEmail = true → specificEmail = Some (to mail)).
Proof.
  intros Hmode Hmail.
  destruct (sendNewsletter_sentMails_live specificEmail env st Hmode)
    as (subs & Hsent & Hsubs).
  rewrite Hsent in Hmail. apply list_elem_of_fmap in Hmail as (sub & -> & Hin).
  apply Hsubs, selectSubscribers_elem in Hin as [Hin Hspec].
  apply list_elem_of_filter in Hin as [Hact Hin].
  exists sub. by split_and!.
Qed.

Lemma digest_only_to_active_subscribers_witness :
  to <$> sentMails (events
    (sendNewsletter (Some "b@x.com") (liveEnv delivers) twoMembers)) = ["b@x.com"] ∧
  ∃ sub, sub ∈ stored twoMembers ∧ email sub = "b@x.com".
Proof.
  split; [reflexivity|].
  destruct (digest_only_to_active_subscribers (Some "b@x.com")
              (liveEnv delivers) twoMembers
              (newsletterMail (liveEnv delivers) "<html>digest</html>"
                 (member "b@x.com")) eq_refl ltac:(by_evaluation))
    as (sub & Hin & _ & Hto & _).
  exists sub. by split.
Defined.

(** After a successful unsubscribe no stored record of that email is
    active. *)
Lemma unsubscribeNewsletter_leaves_inactive env st e sub :
  uniqueEmails st →
  e ∈ email <$> stored st →
  writeFailure env = None →
  sub ∈ stored (store (unsubscribeNewsletter e env st)) →
  email sub = e →
  isActive sub = Some (JsBool false).
Proof.
  intros Hnd [[i x] Hf]%findIndex_is_Some Hw.
  rewrite unsubscribeNewsletter_run, Hf, Hw. cbn [store stored].
  apply findIndex_Some in Hf as [Hi He]. intros Hsub Hsame.
  set (y := markedInactive (now env) x) in *.
  assert (sub = y) as ->; [|done].
  apply (uniqueEmails_at (<[i := y]> (stored st)) i); [| |done|].
  - unfold uniqueEmails in Hnd. by rewrite (emails_insert_same _ _ x).
  - apply list_lookup_insert_eq. by eapply lookup_lt_Some.
  - by rewrite Hsame.
Qed.

(** X3. Unsubscribe, then send: on a store with unique emails, once
    [unsubscribeNewsletter] succeeded for an email, a run of
    [sendNewsletter] outside test mode sends nothing to that email. *)
Theorem unsubscribed_receives_no_digest env env' st e specificEmail mail :
  uniqueEmails st →
  e ∈ email <$> stored st →
  writeFailure env = None →
  testMode env' = false →
  mail ∈ sentMails (events
    (sendNewsletter specificEmail env'
       (store (unsubscribeNewsletter e env st)))) →
  to mail ≠ e.
Proof.
  intros Hnd He Hw Hmode Hmail Hto.
  destruct (sendNewsletter_sentMails_live specificEmail env'
              (store (unsubscribeNewsletter e env st)) Hmode)
    as (subs & Hsent & Hsubs).
  rewrite Hsent in Hmail. apply list_elem_of_fmap in Hmail as (sub & -> & Hin).
  apply Hsubs, selectSubscribers_elem in Hin as [Hin _].
  apply list_elem_of_filter in Hin as [Hact Hin].
  apply Hact. by apply (unsubscribeNewsletter_leaves_inactive env st e).
Qed.

Lemma unsubscribed_receives_no_digest_witness :
  uniqueEmails twoMembers ∧
  to <$> sentMails (events
    (sendNewsletter None (liveEnv delivers)
       (store (unsubscribeNewsletter "a@x.com" (laterEnv delivers) twoMembers))))
  = ["b@x.com"] ∧
  to (newsletterMail (liveEnv delivers) "<html>digest</html>" (member "b@x.com"))
  ≠ "a@x.com".
Proof.
  assert (uniqueEmails twoMembers) as Hnd by by_evaluation.
  split_and!; [exact Hnd|reflexivity|].
  apply (unsubscribed_receives_no_digest (laterEnv delivers)
           (liveEnv delivers) twoMembers "a@x.com" None
           (newsletterMail (liveEnv delivers) "<html>digest</html>"
              (member "b@x.com"))
           Hnd ltac:(by_evaluation) eq_refl eq_refl ltac:(by_evaluation)).
Defined.

(** ** When the digest cannot be prepared *)

(** X4. With at least one selected subscriber and a run that is not suppressed
    by test mode: when building the digest raises, or the digest is built
    and creating the transporter raises, [sendNewsletter] sends nothing,
    prints the error with its own line and resolves to [false]; it does not
    reject. *)
Theorem digest_failure_returns_false specificEmail env st recipients error :
  selectSubscribers specificEmail (filter notInactive (stored st)) ≠ [] →
  testModeRecipients env
    (selectSubscribers specificEmail (filter notInactive (stored st)))
    = Some recipients →
  newsletterHtml env = inl error ∨
  (∃ page, newsletterHtml env = inr page) ∧ createTransport env = inl error →
  let r := sendNewsletter specificEmail env st in
  value r = Returned false ∧
  store r = st ∧
  sentMails (events r) = [] ∧
  EvConsoleError "Error in newsletter sending process:" error ∈ events r.
Proof.
  intros Hsel Htest Hraise r. subst r. rewrite sendNewsletter_run. cbn zeta.
  rewrite bool_decide_eq_false_2
    by (by destruct (selectSubscribers _ _)).
  rewrite Htest. destruct Hraise as [->|[[page ->] ->]]; cbn.
  - split_and!; [done..|]. apply list_elem_of_here.
  - split_and!; [done..|]. apply list_elem_of_further, list_elem_of_here.
Qed.

Lemma digest_failure_returns_false_witness :
  value (sendNewsletter None brokenDigestEnv fiveMembers) = Returned false ∧
  sentMails (events (sendNewsletter None brokenDigestEnv fiveMembers)) = [].
Proof.
  destruct (digest_failure_returns_false None brokenDigestEnv fiveMembers
              (stored fiveMembers) (JsError "market data unavailable")
              ltac:(vm_compute; discriminate) eq_refl (or_introl eq_refl))
    as (Hv & _ & Hs & _).
  by split.
Defined.

(** ** One digest for all *)

(** X5. Every message of one run of [sendNewsletter] carries the same page,
    the one digest built for the run before the loop, and the configured
    sender: the digest is not personalised. (The subject is built for each
    recipient from a fresh reading of the date and is not part of this
    statement.) *)
Theorem digest_shared_by_all_recipients specificEmail env st mail :
  mail ∈ sentMails (events (sendNewsletter specificEmail env st)) →
  newsletterHtml env = inr (html mail) ∧
  from_address mail = EMAIL_USER env.
Proof.
  rewrite sendNewsletter_run. cbn zeta.
  destruct (bool_decide _); [by intros ?%elem_of_nil|].
  destruct (testModeRecipients env _) as [subs|]; [|by intros ?%elem_of_nil].
  destruct (newsletterHtml env) as [e1|page]; [by intros ?%elem_of_nil|].
  destruct (createTransport env) as [e2|t]; [by intros ?%elem_of_nil|].
  cbn [events]. rewrite sendEach_sentMails.
  by intros (sub & -> & _)%list_elem_of_fmap.
Qed.

Lemma digest_shared_by_all_recipients_witness :
  html (newsletterMail (liveEnv delivers) "<html>digest</html>" (member "r4@x.com"))
  = "<html>digest</html>" ∧
  newsletterHtml (liveEnv delivers) = inr "<html>digest</html>".
Proof.
  split; [reflexivity|].
  apply (digest_shared_by_all_recipients None (liveEnv delivers) fiveMembers
           (newsletterMail (liveEnv delivers) "<html>digest</html>"
              (member "r4@x.com")) ltac:(by_evaluation)).
Defined.

(** ** The welcome message *)

(** X6. How [sendWelcomeEmail] ends. It resolves to [false] exactly when the
    message is not suppressed by test mode and the transporter cannot be
    created (the function's own [catch]); it rejects exactly when the
    transport answers with an error or not at all (the rejection of the
    returned promise passes the [catch]); otherwise it resolves to [true].
    At most one message is handed to the transport and the file is left
    alone. *)
Theorem sendWelcomeEmail_outcomes sub env st :
  let r := sendWelcomeEmail sub env st in
  store r = st ∧
  (value r = Returned false ↔
     ∃ target error,
       welcomeTarget env sub = Some target ∧ createTransport env = inl error) ∧
  ((∃ error, value r = Thrown error) ↔
     ∃ target t,
       welcomeTarget env sub = Some target ∧ createTransport env = inr t ∧
       isDelivered (t 0 (welcomeMail env target)) = false) ∧
  (value r = Returned true ↔
     welcomeTarget env sub = None ∨
     ∃ target t,
       welcomeTarget env sub = Some target ∧ createTransport env = inr t ∧
       isDelivered (t 0 (welcomeMail env target)) = true) ∧
  (length (sentMails (events r)) ≤ 1)%nat.
Proof.
  intros r. subst r. split; [apply sendWelcomeEmail_store|].
  unfold sendWelcomeEmail, bind. simpl.
  destruct (welcomeTarget env sub) as [target|].
  2:{ simpl. split_and!; [| |by split; auto|lia].
      - split; [done|]. by intros (? & ? & [=] & _).
      - split; [by intros [? [=]]|]. by intros (? & ? & [=] & _). }
  unfold tryCatch, createEmailTransporter, bind. simpl.
  destruct (createTransport env) as [err|t]; simpl.
  - split_and!; [| | |lia].
    + split; [|done]. intros _. by exists target, err.
    + split; [by intros [? [=]]|]. by intros (? & ? & _ & [=] & _).
    + split; [done|]. intros [[=]|(? & ? & _ & [=] & _)].
  - unfold sendMailPromise, bind. simpl.
    destruct (t 0 (welcomeMail env target)) as [mid|error|] eqn:Ha; simpl.
    + split_and!; [| | |lia].
      * split; [done|]. by intros (? & ? & _ & [=]).
      * split; [by intros [? [=]]|].
        intros (? & ? & [= <-] & [= <-] & Hd). by rewrite Ha in Hd.
      * split; [|done]. intros _. right. exists target, t. by rewrite Ha.
    + split_and!; [| | |lia].
      * split; [done|]. by intros (? & ? & _ & [=]).
      * split; [|by eauto]. intros _. exists target, t. by rewrite Ha.
      * split; [done|]. intros [[=]|(? & ? & [= <-] & [= <-] & Hd)].
        by rewrite Ha in Hd.
    + split_and!; [| | |lia].
      * split; [done|]. by intros (? & ? & _ & [=]).
      * split; [|by eauto]. intros _. exists target, t. by rewrite Ha.
      * split; [done|]. intros [[=]|(? & ? & [= <-] & [= <-] & Hd)].
        by rewrite Ha in Hd.
Qed.

Lemma sendWelcomeEmail_sentMails sub env st :
  sentMails (events (sendWelcomeEmail sub env st)) =
  match welcomeTarget env sub, createTransport env with
  | Some target, inr _ => [welcomeMail env target]
  | _, _ => []
  end.
Proof.
  unfold sendWelcomeEmail, bind. simpl.
  destruct (welcomeTarget env sub) as [target|]; [|done].
  unfold tryCatch, createEmailTransporter, bind. simpl.
  destruct (createTransport env) as [err|t]; simpl; [done|].
  unfold sendMailPromise, bind. simpl.
  by destruct (t 0 (welcomeMail env target)).
Qed.

(** The messages a call of [subscribeNewsletter] hands to the transport:
    those of the welcome message of a first subscription that was saved,
    none otherwise. *)
Lemma subscribeNewsletter_sentMails params env st :
  sentMails (events (subscribeNewsletter params env st)) =
  match findIndex (p_email params) (stored st), writeFailure env with
  | None, None =>
      let sub := newSubscription params (now env) (now env) in
      sentMails (events (sendWelcomeEmail sub env (Some (stored st ++ [sub]))))
  | _, _ => []
  end.
Proof.
  destruct (findIndex (p_email params) (stored st)) as [[i x]|] eqn:Hf.
  - rewrite (subscribeNewsletter_existing _ _ _ i x Hf).
    by destruct (writeFailure env).
  - destruct (writeFailure env) as [err|] eqn:Hw.
    + by rewrite (subscribeNewsletter_new_unwritable _ _ _ err Hf Hw).
    + rewrite (subscribeNewsletter_new _ _ _ Hf Hw). cbn [events].
      cbn [sentMails omap list_omap]. fold sentMails.
      rewrite sentMails_app.
      destruct (value _); simpl; by rewrite app_nil_r.
Qed.

(** X7. In test mode a subscription never writes to the subscriber: whatever
    [subscribeNewsletter] hands to the transport is addressed to the
    configured test recipient. *)
Theorem subscribe_in_test_mode_mails_test_recipient params env st mail :
  testMode env = true →
  mail ∈ sentMails (events (subscribeNewsletter params env st)) →
  EMAIL_TEST_RECIPIENT env = Some (to mail) ∧ to mail ≠ "".
Proof.
  intros Hmode. rewrite subscribeNewsletter_sentMails.
  destruct (findIndex _ _); [by intros ?%elem_of_nil|].
  destruct (writeFailure env); [by intros ?%elem_of_nil|].
  cbn zeta. rewrite sendWelcomeEmail_sentMails.
  unfold welcomeTarget. rewrite Hmode.
  destruct (EMAIL_TEST_RECIPIENT env) as [recipient|]; simpl;
    [|by intros ?%elem_of_nil].
  case_bool_decide as Hne; [|by intros ?%elem_of_nil].
  destruct (createTransport env); [by intros ?%elem_of_nil|].
  by intros ->%list_elem_of_singleton.
Qed.

Lemma subscribe_in_test_mode_mails_test_recipient_witness :
  to <$> sentMails (events
    (subscribeNewsletter (request "new@x.com" (Some "Nia") [])
       (testEnv delivers) twoMembers)) = ["qa@equora.ai"] ∧
  EMAIL_TEST_RECIPIENT (testEnv delivers) = Some "qa@equora.ai".
Proof.
  split; [reflexivity|].
  apply (subscribe_in_test_mode_mails_test_recipient
           (request "new@x.com" (Some "Nia") []) (testEnv delivers) twoMembers
           (welcomeMail (testEnv delivers)
              (testRedirected newcomer)) eq_refl ltac:(by_evaluation)).
Defined.

(** X8. A first subscription in production with a transporter at hand: the
    record is written first, then exactly one message, the welcome message,
    is handed to the transport, addressed to the new subscriber; the file is
    not written again. *)
Theorem first_subscription_sends_one_welcome params env st t :
  p_email params ∉ email <$> stored st →
  writeFailure env = None →
  testMode env = false →
  createTransport env = inr t →
  let sub := newSubscription params (now env) (now env) in
  ∃ rest,
    events (subscribeNewsletter params env st) =
      EvWriteFile (stored st ++ [sub]) ::
      EvSendMail (welcomeMail env sub) (t 0 (welcomeMail env sub)) :: rest ∧
    sentMails rest = [] ∧
    writes rest = [] ∧
    to (welcomeMail env sub) = p_email params.
Proof.
  intros Hf%findIndex_None Hw Hmode Ht sub.
  rewrite (subscribeNewsletter_new _ _ _ Hf Hw). fold sub. cbn [events].
  unfold sendWelcomeEmail, bind. simpl.
  unfold welcomeTarget. rewrite Hmode.
  unfold tryCatch, createEmailTransporter, bind. simpl. rewrite Ht. simpl.
  unfold sendMailPromise, bind. simpl.
  destruct (t 0 (welcomeMail env sub)); simpl; eexists; by split_and!.
Qed.

Lemma first_subscription_sends_one_welcome_witness :
  ("new@x.com" ∉ email <$> stored twoMembers) ∧
  to <$> sentMails (events
    (subscribeNewsletter (request "new@x.com" (Some "Nia") [])
       (liveEnv delivers) twoMembers)) = ["new@x.com"] ∧
  to (welcomeMail (liveEnv delivers) newcomer) = "new@x.com".
Proof.
  assert ("new@x.com" ∉ email <$> stored twoMembers) as Hnew by by_evaluation.
  split_and!; [exact Hnew|reflexivity|].
  destruct (first_subscription_sends_one_welcome
              (request "new@x.com" (Some "Nia") []) (liveEnv delivers)
              twoMembers delivers Hnew eq_refl eq_refl eq_refl)
    as (rest & _ & _ & _ & Hto).
  exact Hto.
Defined.

(** ** A file that cannot be written *)





(** ** Repeated and mixed calls *)

(** Replacing the found record by one of the same email leaves it the
    first match. *)
Lemma findIndex_insert_same e (l : list Subscriber) i x y :
  findIndex e l = Some (i, x) → email y = email x →
  findIndex e (<[i := y]> l) = Some (i, y).
Proof.
  unfold findIndex. intros (Hi & He & Hfirst)%list_find_Some Hy.
  apply list_find_Some. split_and!.
  - apply list_lookup_insert_eq. by eapply lookup_lt_Some.
  - by rewrite Hy.
  - intros j z Hj Hlt. rewrite list_lookup_insert_ne in Hj by lia.
    by apply (Hfirst j).
Qed.

(** X11. Unsubscribing an email twice: the second call succeeds like the first
    (the record is found although inactive), the record stays inactive with
    [updatedAt] set by the second call, and the emails of the collection are
    those before the two calls. *)
Theorem unsubscribe_twice env1 env2 st e :
  e ∈ email <$> stored st →
  writeFailure env1 = None →
  writeFailure env2 = None →
  let r1 := unsubscribeNewsletter e env1 st in
  let r2 := unsubscribeNewsletter e env2 (store r1) in
  value r2 = Returned unsubscribed ∧
  email <$> stored (store r2) = email <$> stored st ∧
  ∃ i kept,
    stored (store r2) !! i = Some kept ∧
    email kept = e ∧
    isActive kept = Some (JsBool false) ∧
    updatedAt kept = Some (now env2).
Proof.
  intros [[i x] Hf]%findIndex_is_Some Hw1 Hw2 r1 r2. subst r1 r2.
  rewrite (unsubscribeNewsletter_run env1), Hf, Hw1. cbn [store].
  set (y := markedInactive (now env1) x).
  pose proof (findIndex_insert_same e _ i x y Hf eq_refl) as Hf2.
  rewrite unsubscribeNewsletter_run. cbn [stored]. rewrite Hf2, Hw2.
  cbn [value store stored].
  apply findIndex_Some in Hf as [Hi He].
  assert (i < length (stored st)) as Hlt by by eapply lookup_lt_Some.
  split_and!; [done| |].
  - rewrite (emails_insert_same _ i y); [by apply (emails_insert_same _ _ x)| |done].
    by apply list_lookup_insert_eq.
  - exists i, (markedInactive (now env2) y). split_and!; [|done..].
    apply list_lookup_insert_eq. by rewrite length_insert.
Qed.

Lemma unsubscribe_twice_witness :
  ("a@x.com" ∈ email <$> stored twoMembers) ∧
  value (unsubscribeNewsletter "a@x.com" (laterEnv delivers)
           (store (unsubscribeNewsletter "a@x.com" (liveEnv delivers) twoMembers)))
    = Returned unsubscribed.
Proof.
  assert ("a@x.com" ∈ email <$> stored twoMembers) as Hin by by_evaluation.
  split; [exact Hin|].
  apply (unsubscribe_twice (liveEnv delivers) (laterEnv delivers) twoMembers
           "a@x.com" Hin eq_refl eq_refl).
Defined.

(** X12. Subscribing again after unsubscribing does not reactivate: the update
    branch keeps the stored [isActive], so the returned record is still
    inactive, no welcome message is sent, and with unique emails the active
    listing still has no record of that email. *)
Theorem resubscribe_stays_inactive env1 env2 env3 st params :
  uniqueEmails st →
  p_email params ∈ email <$> stored st →
  writeFailure env1 = None →
  writeFailure env2 = None →
  let r1 := unsubscribeNewsletter (p_email params) env1 st in
  let r2 := subscribeNewsletter params env2 (store r1) in
  ∃ sub active,
    value r2 = Returned sub ∧
    email sub = p_email params ∧
    isActive sub = Some (JsBool false) ∧
    events r2 = [EvWriteFile (stored (store r2))] ∧
    value (getNewsletterSubscribers true env3 (store r2)) = Returned active ∧
    ∀ listed, listed ∈ active → email listed ≠ p_email params.
Proof.
  intros Hnd [[i x] Hf]%findIndex_is_Some Hw1 Hw2 r1 r2. subst r1 r2.
  rewrite (unsubscribeNewsletter_run env1), Hf, Hw1. cbn [store].
  set (y := markedInactive (now env1) x).
  pose proof (findIndex_insert_same _ _ i x y Hf eq_refl) as Hf2.
  rewrite (subscribeNewsletter_existing env2 (Some (<[i := y]> (stored st)))
             params i y Hf2), Hw2. cbn zeta.
  set (z := updatedSubscription params (now env2) y).
  apply findIndex_Some in Hf as [Hi He].
  assert (i < length (stored st)) as Hlt by by eapply lookup_lt_Some.
  exists z, (filter notInactive
               (<[i := z]> (stored (Some (<[i := y]> (stored st)))))).
  rewrite getNewsletterSubscribers_run. cbn [value store events stored].
  split_and!; [done..|].
  intros listed [Hact Hin]%list_elem_of_filter Hsame.
  assert (listed = z) as ->; [|by apply Hact].
  apply (uniqueEmails_at (<[i := z]> (<[i := y]> (stored st))) i); [| |done|].
  - unfold uniqueEmails in Hnd.
    rewrite (emails_insert_same _ i y); [by rewrite (emails_insert_same _ _ x)| |done].
    by apply list_lookup_insert_eq.
  - apply list_lookup_insert_eq. by rewrite length_insert.
  - by rewrite Hsame.
Qed.

Lemma resubscribe_stays_inactive_witness :
  uniqueEmails twoMembers ∧
  value (getNewsletterSubscribers true (laterEnv delivers)
    (store (subscribeNewsletter (request "a@x.com" (Some "Ann") [])
       (laterEnv delivers)
       (store (unsubscribeNewsletter "a@x.com" (liveEnv delivers) twoMembers)))))
  = Returned [member "b@x.com"] ∧
  ∃ sub,
    value (subscribeNewsletter (request "a@x.com" (Some "Ann") [])
       (laterEnv delivers)
       (store (unsubscribeNewsletter "a@x.com" (liveEnv delivers) twoMembers)))
    = Returned sub ∧
    isActive sub = Some (JsBool false).
Proof.
  assert (uniqueEmails twoMembers) as Hnd by by_evaluation.
  split_and!; [exact Hnd|reflexivity|].
  destruct (resubscribe_stays_inactive (liveEnv delivers) (laterEnv delivers)
              (laterEnv delivers) twoMembers
              (request "a@x.com" (Some "Ann") [])
              Hnd ltac:(by_evaluation) eq_refl eq_refl)
    as (sub & active & Hv & _ & Ha & _).
  exists sub. by split.
Defined.

(** ** What a call leaves alone *)




(** What a call leaves in the file when it cannot read it: a subscription
    that can write replaces the collection by the new record alone, every
    other call leaves the file as it is. *)
Lemma storeAfterStep_unread call env st :
  storeAfterStep {| stepCall := call; stepEnv := env; stepReads := false |} st =
  match call, writeFailure env with
  | CallSubscribe params, None =>
      Some [newSubscription params (now env) (now env)]
  | _, _ => st
  end.
Proof.
  unfold storeAfterStep, duringReadFailure.
  cbn [stepCall stepEnv stepReads].
  destruct call as [params|e|activeOnly|specificEmail].
  - destruct (writeFailure env) as [err|] eqn:Hw.
    + by rewrite (subscribeNewsletter_new_unwritable env None params err eq_refl Hw).
    + by rewrite (subscribeNewsletter_new env None params eq_refl Hw).
  - rewrite unsubscribeNewsletter_run. simpl. by destruct (writeFailure env).
  - rewrite getNewsletterSubscribers_run. simpl.
    destruct activeOnly; by destruct (writeFailure env).
  - rewrite sendNewsletter_run. cbn zeta. unfold selectSubscribers. simpl.
    destruct (truthy specificEmail); by destruct (writeFailure env).
Qed.

(** The invariant also holds along histories with calls that cannot read
    the file. *)
Lemma uniqueEmails_storeAfterHistory history : ∀ st,
  uniqueEmails st → uniqueEmails (storeAfterHistory history st).
Proof.
  unfold storeAfterHistory.
  induction history as [|[call env reads] history IH]; intros st Hnd; [done|].
  simpl. apply IH. destruct reads.
  - by apply uniqueEmails_storeAfter.
  - rewrite storeAfterStep_unread.
    destruct call; try done. destruct (writeFailure env); [done|].
    apply NoDup_singleton.
Qed.



(** ** Identifiers and greeting *)

Lemma decimal_inj n m : decimal n = decimal m → n = m.
Proof.
  unfold decimal. intros H. apply DecimalN.Unsigned.to_uint_inj.
  assert (Some (N.to_uint n) = Some (N.to_uint m)) as [=]; [|done].
  by rewrite <- !NilEmpty.usu, H.
Qed.

(** X15. The id of a new record is the clock reading and nothing else: two
    first subscriptions get the same id exactly when [Date.now()] read the
    same millisecond, also for different emails and different stores. *)
Theorem new_ids_equal_iff_same_millisecond
    env1 env2 st1 st2 params1 params2 sub1 sub2 :
  p_email params1 ∉ email <$> stored st1 →
  p_email params2 ∉ email <$> stored st2 →
  value (subscribeNewsletter params1 env1 st1) = Returned sub1 →
  value (subscribeNewsletter params2 env2 st2) = Returned sub2 →
  id sub1 = id sub2 ↔ now env1 = now env2.
Proof.
  intros Hf1%findIndex_None Hf2%findIndex_None.
  destruct (writeFailure env1) as [err|] eqn:Hw1.
  { by rewrite (subscribeNewsletter_new_unwritable _ _ _ err Hf1 Hw1). }
  destruct (writeFailure env2) as [err|] eqn:Hw2.
  { by rewrite (subscribeNewsletter_new_unwritable _ _ _ err Hf2 Hw2). }
  rewrite (subscribeNewsletter_new _ _ _ Hf1 Hw1),
    (subscribeNewsletter_new _ _ _ Hf2 Hw2). cbn [value].
  intros [= <-] [= <-]. simpl. split.
  - intros [= H]. by apply decimal_inj.
  - by intros ->.
Qed.

Lemma new_ids_equal_iff_same_millisecond_witness :
  ("c@x.com" ∉ email <$> stored twoMembers) ∧
  ("d@y.org" ∉ email <$> stored None) ∧
  id (newSubscription (request "c@x.com" None [])
        (now (liveEnv delivers)) (now (liveEnv delivers)))
  = id (newSubscription (request "d@y.org" (Some "Dee") ["fx"])
          (now (testEnv delivers)) (now (testEnv delivers))).
Proof.
  assert ("c@x.com" ∉ email <$> stored twoMembers) as H1 by by_evaluation.
  assert ("d@y.org" ∉ email <$> stored None) as H2 by by_evaluation.
  split_and!; [exact H1|exact H2|].
  apply (new_ids_equal_iff_same_millisecond (liveEnv delivers) (testEnv delivers)
           twoMembers None (request "c@x.com" None [])
           (request "d@y.org" (Some "Dee") ["fx"]) _ _ H1 H2 eq_refl eq_refl).
  reflexivity.
Defined.

Lemma firstWord_prefix s :
  ∃ rest, s = firstWord s +:+ rest ∧ (rest = "" ∨ ∃ tail, rest = String " " tail).
Proof.
  induction s as [|c s (rest & IH & Hrest)]; simpl.
  - exists "". by split; [|left].
  - case_bool_decide as Hc.
    + subst c. exists (String " " s). split; [done|]. right. by exists s.
    + exists rest. split; [|done].
      change (String c s = String c (firstWord s +:+ rest)). by f_equal.
Qed.

Lemma firstWord_no_space s : " "%char ∉ list_ascii_of_string (firstWord s).
Proof.
  induction s as [|c s IH]; simpl; [by intros ?%elem_of_nil|].
  case_bool_decide as Hc; simpl; [by intros ?%elem_of_nil|].
  intros [Heq|Hin]%elem_of_cons; [congruence|done].
Qed.

(** X16. The name the welcome page greets with: ["there"] when the subscription
    has no name or an empty one; otherwise the part of the name before its
    first space, which is empty when the name starts with a space. The
    greeting name never contains a space. *)
Theorem welcome_greeting env sub :
  ∃ greeting,
    generateWelcomeEmailHtml env sub = welcomeTemplate env greeting sub ∧
    (" "%char ∉ list_ascii_of_string greeting) ∧
    (name sub = None ∨ name sub = Some "" → greeting = "there") ∧
    (∀ n, name sub = Some n → n ≠ "" →
       ∃ rest, n = greeting +:+ rest ∧ (rest = "" ∨ ∃ tail, rest = String " " tail)) ∧
    (∀ tail, name sub = Some (String " " tail) → greeting = "").
Proof.
  unfold generateWelcomeEmailHtml. destruct (name sub) as [n|]; simpl.
  - case_bool_decide as Hn.
    + exists (firstWord n). split_and!; [done|apply firstWord_no_space| | |].
      * intros [[=]|[= ->]]. done.
      * intros ? [= <-] _. apply firstWord_prefix.
      * by intros tail [= ->].
    + subst n. exists "there".
      split_and!; [done|by_evaluation|done| |done].
      by intros ? [= <-].
  - exists "there". split_and!; [done|by_evaluation|done..].
Qed.

(** ** The email pattern of the controller *)

Lemma nullable_Matches r : nullable r = true ↔ Matches r [].
Proof.
  split.
  - induction r; simpl; try done.
    + constructor.
    + intros [H|H]%orb_true_iff; [apply MatchesAltL|apply MatchesAltR]; auto.
    + intros [H1 H2]%andb_true_iff.
      apply (MatchesSeq _ _ [] []); auto.
    + constructor.
  - intros H. remember [] as l eqn:Hl.
    induction H as [| | | |r1 r2 l1 l2 H1 IH1 H2 IH2| |]; simpl; try done.
    + by rewrite IHMatches.
    + rewrite IHMatches by done. apply orb_true_r.
    + apply app_eq_nil in Hl as [-> ->]. by rewrite IH1, IH2.
Qed.

Lemma Matches_class accepts l :
  Matches (RClass accepts) l ↔ ∃ c, l = [c] ∧ accepts c = true.
Proof.
  split.
  - inversion 1; subst. eauto.
  - intros (c & -> & Hc). by constructor.
Qed.

Lemma Matches_seq r1 r2 l :
  Matches (RSeq r1 r2) l ↔ ∃ l1 l2, l = l1 ++ l2 ∧ Matches r1 l1 ∧ Matches r2 l2.
Proof.
  split.
  - inversion 1; subst. eauto.
  - intros (l1 & l2 & -> & H1 & H2). by constructor.
Qed.

Lemma Matches_star_cons r c l :
  Matches (RStar r) (c :: l) →
  ∃ l1 l2, l = l1 ++ l2 ∧ Matches r (c :: l1) ∧ Matches (RStar r) l2.
Proof.
  intros H. remember (RStar r) as rs eqn:Hrs. remember (c :: l) as cl eqn:Hcl.
  revert l Hcl.
  induction H as [| | | | | |r' l1 l2 H1 _ H2 IH2]; intros k Hcl; try done.
  injection Hrs as ->. destruct l1 as [|c' l1]; simpl in Hcl.
  - by apply IH2.
  - injection Hcl as -> <-. by exists l1, l2.
Qed.

Lemma derive_Matches r : ∀ c l, Matches (derive c r) l ↔ Matches r (c :: l).
Proof.
  induction r as [| |accepts|r1 IH1 r2 IH2|r1 IH1 r2 IH2|r IH];
    intros c l; simpl.
  - split; inversion 1.
  - split; inversion 1.
  - destruct (accepts c) eqn:Hc; split; inversion 1; subst.
    + by constructor.
    + constructor.
    + congruence.
  - split.
    + inversion 1; subst; [apply MatchesAltL|apply MatchesAltR];
        first [by apply IH1|by apply IH2].
    + inversion 1; subst; [apply MatchesAltL|apply MatchesAltR];
        first [by apply IH1|by apply IH2].
  - assert (∀ l, Matches (RSeq (derive c r1) r2) l →
                 Matches (RSeq r1 r2) (c :: l)) as Hleft.
    { intros k (l1 & l2 & -> & H1 & H2)%Matches_seq.
      apply IH1 in H1. by apply (MatchesSeq _ _ (c :: l1) l2). }
    assert (∀ l, Matches (RSeq r1 r2) (c :: l) →
                 Matches (RSeq (derive c r1) r2) l ∨
                 (Matches r1 [] ∧ Matches r2 (c :: l))) as Hsplit.
    { intros k (l1 & l2 & Heq & H1 & H2)%Matches_seq.
      destruct l1 as [|c' l1]; simpl in Heq.
      - right. by subst l2.
      - injection Heq as <- ->. left. constructor; [by apply IH1|done]. }
    destruct (nullable r1) eqn:Hn; split.
    + inversion 1; subst; [by apply Hleft|].
      apply (MatchesSeq _ _ [] (c :: l)); [by apply nullable_Matches|by apply IH2].
    + intros [H|[_ H]]%Hsplit; [by apply MatchesAltL|].
      apply MatchesAltR. by apply IH2.
    + apply Hleft.
    + intros [H|[H _]]%Hsplit; [done|].
      apply nullable_Matches in H. congruence.
  - split.
    + intros (l1 & l2 & -> & H1 & H2)%Matches_seq.
      apply IH in H1. by apply (MatchesStarCons _ (c :: l1) l2).
    + intros (l1 & l2 & -> & H1 & H2)%Matches_star_cons.
      constructor; [by apply IH|done].
Qed.

(** The test by derivatives decides the language of the expression. *)
Lemma matchesAll_Matches l : ∀ r, matchesAll r l = true ↔ Matches r l.
Proof.
  induction l as [|c l IH]; intros r; simpl.
  - apply nullable_Matches.
  - rewrite IH. apply derive_Matches.
Qed.

Lemma Matches_star_class accepts l :
  Matches (RStar (RClass accepts)) l ↔ Forall (λ c, accepts c = true) l.
Proof.
  split.
  - intros H. remember (RStar (RClass accepts)) as rs eqn:Hrs.
    induction H as [| | | | | |r l1 l2 H1 _ H2 IH2]; try done.
    injection Hrs as ->. apply Matches_class in H1 as (c & -> & Hc).
    constructor; [done|by apply IH2].
  - induction 1 as [|c l Hc _ IH]; [constructor|].
    apply (MatchesStarCons _ [c] l); [by constructor|done].
Qed.

Lemma Matches_plus_class accepts l :
  Matches (RPlus (RClass accepts)) l ↔
  l ≠ [] ∧ Forall (λ c, accepts c = true) l.
Proof.
  unfold RPlus. rewrite Matches_seq. split.
  - intros (l1 & l2 & -> & (c & -> & Hc)%Matches_class & H2%Matches_star_class).
    split; [done|by constructor].
  - intros [Hne H]. destruct H as [|c l Hc H]; [done|].
    exists [c], l. split_and!; [done| |by apply Matches_star_class].
    apply Matches_class. eauto.
Qed.

Lemma Matches_address_part l :
  Matches (RPlus (RClass notSpaceNorAt)) l ↔ addressPart l.
Proof.
  rewrite Matches_plus_class. unfold addressPart, notSpaceNorAt.
  apply and_iff_compat_l, Forall_iff. intros c.
  rewrite andb_true_iff, !negb_true_iff, bool_decide_eq_false. done.
Qed.

(** X17. The addresses the pattern [/^[^\s@]+@[^\s@]+\.[^\s@]+$/] accepts are
    exactly those of the form local, at sign, host, dot, rest, where each of
    the three parts is non-empty and has neither whitespace nor an at sign
    (the host and the rest may contain further dots). *)
Theorem emailRegex_accepts_exactly s :
  regexTest emailRegex s = true ↔
  ∃ a b c,
    list_ascii_of_string s = a ++ "@"%char :: b ++ "."%char :: c ∧
    addressPart a ∧ addressPart b ∧ addressPart c.
Proof.
  unfold regexTest, emailRegex. rewrite matchesAll_Matches. split.
  - intros (a & l1 & -> & Ha%Matches_address_part &
            (x & l2 & -> & (c1 & -> & Hc1%bool_decide_eq_true)%Matches_class &
             (b & l3 & -> & Hb%Matches_address_part &
              (y & c & -> & (c2 & -> & Hc2%bool_decide_eq_true)%Matches_class &
               Hc%Matches_address_part)%Matches_seq)%Matches_seq)%Matches_seq)%Matches_seq.
    subst c1 c2. by exists a, b, c.
  - intros (a & b & c & -> & Ha & Hb & Hc).
    apply Matches_seq. exists a, ("@"%char :: b ++ "."%char :: c).
    split_and!; [done|by apply Matches_address_part|].
    apply Matches_seq. exists ["@"%char], (b ++ "."%char :: c).
    split_and!; [done|by apply Matches_class; eauto|].
    apply Matches_seq. exists b, ("."%char :: c).
    split_and!; [done|by apply Matches_address_part|].
    apply Matches_seq. exists ["."%char], c.
    split_and!; [done|by apply Matches_class; eauto|].
    by apply Matches_address_part.
Qed.

(** The pattern on a few addresses. *)
Example emailRegex_samples :
  regexTest emailRegex "ann.lee@mail.example.org" = true ∧
  regexTest emailRegex "a@b.c" = true ∧
  regexTest emailRegex "a@b" = false ∧
  regexTest emailRegex "a@b." = false ∧
  regexTest emailRegex "@b.c" = false ∧
  regexTest emailRegex "a@@b.c" = false ∧
  regexTest emailRegex "a b@c.d" = false ∧
  regexTest emailRegex "" = false.
Proof. split_and!; reflexivity. Qed.

(** ** The HTTP controller *)

(** X18. A subscribe request without an email, with an empty one or with one the
    pattern rejects is answered 400 before the service is called: the file
    is neither read nor written and nothing is sent or printed. *)
Theorem subscribe_rejects_bad_email body env st :
  truthy (body_email body) = false ∨
  regexTest emailRegex (default "" (body_email body)) = false →
  ∃ reason,
    subscribe body env st =
      MkRun (Returned {| status := 400; json := JsonError reason |}) st [] ∧
    reason = (if truthy (body_email body)
              then "Invalid email format" else "Email is required").
Proof.
  intros Hbad. unfold subscribe, tryCatch.
  destruct (truthy (body_email body)); simpl; [|by eauto].
  destruct Hbad as [Hbad|Hbad]; [done|]. rewrite Hbad. simpl. by eauto.
Qed.

Lemma subscribe_rejects_bad_email_witness :
  regexTest emailRegex "ann@localhost" = false ∧
  subscribe {| body_email := Some "ann@localhost"; body_name := None;
               body_topics := None; body_sources := None;
               body_frequency := None |} (liveEnv delivers) twoMembers =
  MkRun (Returned {| status := 400; json := JsonError "Invalid email format" |})
    twoMembers [].
Proof.
  split; [reflexivity|].
  destruct (subscribe_rejects_bad_email
              {| body_email := Some "ann@localhost"; body_name := None;
                 body_topics := None; body_sources := None;
                 body_frequency := None |} (liveEnv delivers) twoMembers
              (or_intror eq_refl)) as (reason & -> & ->).
  reflexivity.
Defined.

(** On a writable file a call of the service returns a record that is
    stored and carries the fields of the call. *)
Lemma subscribeNewsletter_fields env st params :
  writeFailure env = None →
  ∃ sub,
    value (subscribeNewsletter params env st) = Returned sub ∧
    sub ∈ stored (store (subscribeNewsletter params env st)) ∧
    email sub = p_email params ∧
    name sub = p_name params ∧
    topics sub = Some (default [] (p_topics params)) ∧
    sources sub = Some (default [] (p_sources params)) ∧
    frequency sub = Some (default "daily" (p_frequency params)).
Proof.
  intros Hw. destruct (findIndex (p_email params) (stored st)) as [[i x]|] eqn:Hf.
  - rewrite (subscribeNewsletter_existing _ _ _ i x Hf), Hw. cbn zeta.
    apply findIndex_Some in Hf as [Hi He].
    eexists. cbn [value store stored]. split_and!; [done| |done..].
    apply list_elem_of_insert. by eapply lookup_lt_Some.
  - rewrite (subscribeNewsletter_new _ _ _ Hf Hw).
    eexists. cbn [value store stored]. split_and!; [done| |done..].
    apply elem_of_app. right. apply list_elem_of_here.
Qed.

(** X19. A subscribe request with an accepted email on a writable file is
    answered 200 with the record the service returned; the record is stored
    under that email, and its frequency is the one of the request or, when
    the request has none or an empty one, ["weekly"]: through the route the
    service's own default ["daily"] never applies. *)
Theorem subscribe_route_stores body env st e :
  body_email body = Some e →
  regexTest emailRegex e = true →
  writeFailure env = None →
  ∃ sub,
    value (subscribe body env st) =
      Returned {| status := 200;
                  json := JsonSubscribed "Successfully subscribed to newsletter"
                            sub |} ∧
    sub ∈ stored (store (subscribe body env st)) ∧
    email sub = e ∧
    name sub = body_name body ∧
    topics sub = Some (default [] (body_topics body)) ∧
    sources sub = Some (default [] (body_sources body)) ∧
    frequency sub = Some (if truthy (body_frequency body)
                          then default "" (body_frequency body)
                          else "weekly").
Proof.
  intros He Hre Hw. unfold subscribe, tryCatch. rewrite He. simpl.
  assert (e ≠ "") as Hne by (by intros ->).
  rewrite bool_decide_eq_true_2 by done. simpl. rewrite Hre. simpl.
  unfold bind.
  destruct (subscribeNewsletter_fields env st
    {| p_email := e; p_name := body_name body;
       p_topics := Some (default [] (body_topics body));
       p_sources := Some (default [] (body_sources body));
       p_frequency := Some (if truthy (body_frequency body)
                            then default "" (body_frequency body)
                            else "weekly") |} Hw)
    as (sub & Hv & Hin & Hfields).
  destruct (subscribeNewsletter _ env st) as [v st' evs]. simpl in *.
  subst v. simpl. exists sub. split; [done|]. split; [done|]. exact Hfields.
Qed.

Lemma subscribe_route_stores_witness :
  regexTest emailRegex "cy@x.com" = true ∧
  ∃ sub,
    sub ∈ stored (store (subscribe
      {| body_email := Some "cy@x.com"; body_name := Some "Cy";
         body_topics := None; body_sources := None;
         body_frequency := None |} (liveEnv delivers) twoMembers)) ∧
    email sub = "cy@x.com" ∧
    frequency sub = Some "weekly".
Proof.
  split; [reflexivity|].
  destruct (subscribe_route_stores
              {| body_email := Some "cy@x.com"; body_name := Some "Cy";
                 body_topics := None; body_sources := None;
                 body_frequency := None |} (liveEnv delivers) twoMembers
              "cy@x.com" eq_refl eq_refl eq_refl)
    as (sub & _ & Hin & He & _ & _ & _ & Hfreq).
  exists sub. by split_and!.
Defined.



(** X21. An unsubscribe request for an email that is not stored is answered 200
    with the message "Successfully unsubscribed from newsletter"; the
    not-found outcome only shows in the nested result ([success = false]),
    and the file is left alone. *)
Theorem unsubscribe_route_unknown_email env st e :
  e ≠ "" →
  e ∉ email <$> stored st →
  unsubscribe (Some e) env st =
  MkRun (Returned {| status := 200;
                     json := JsonUnsubscribed
                               "Successfully unsubscribed from newsletter"
                               notFound |}) st [].
Proof.
  intros Hne Hf%findIndex_None. unfold unsubscribe, tryCatch, bind. simpl.
  rewrite bool_decide_eq_true_2 by done. simpl.
  by rewrite unsubscribeNewsletter_run, Hf.
Qed.

Lemma unsubscribe_route_unknown_email_witness :
  "nobody@x.com" ≠ "" ∧
  ("nobody@x.com" ∉ email <$> stored twoMembers) ∧
  status <$> value_of (unsubscribe (Some "nobody@x.com") (liveEnv delivers)
                         twoMembers) = Some 200.
Proof.
  assert ("nobody@x.com" ≠ "") as Hne by done.
  assert ("nobody@x.com" ∉ email <$> stored twoMembers) as Hf by by_evaluation.
  split_and!; [exact Hne|exact Hf|].
  by rewrite (unsubscribe_route_unknown_email (liveEnv delivers) twoMembers
                "nobody@x.com" Hne Hf).
Defined.

(** X22. On a file that is missing, unreadable or holds an array of records,
    the subscribers route answers 200 and leaves the file alone; it lists
    exactly the stored records whose [isActive] is not [false], with their
    number as count: the route has no parameter for the full listing, so an
    inactive record is never shown. *)
Theorem subscribers_route_lists_active env st :
  ∃ subscribers,
    getSubscribers env st =
      MkRun (Returned {| status := 200;
                         json := JsonSubscribers subscribers
                                   (length subscribers) |}) st [] ∧
    ∀ sub, sub ∈ subscribers ↔
      sub ∈ stored st ∧ isActive sub ≠ Some (JsBool false).
Proof.
  exists (filter notInactive (stored st)). split.
  - unfold getSubscribers, tryCatch, bind.
    by rewrite getNewsletterSubscribers_run.
  - intros sub. rewrite list_elem_of_filter. unfold notInactive. tauto.
Qed.

(** ** Scheduler and scripts *)

(** X23. The scheduled callback and [main] of scripts/sendNewsletter.js never
    throw, leave the file alone and have exactly the effects of
    [sendNewsletter()] with no argument: their own [catch] is never entered,
    and the emptiness check of [main] changes nothing. *)
Theorem scheduled_and_manual_runs env st :
  scheduledDelivery env st =
    MkRun (Returned tt) st (events (sendNewsletter None env st)) ∧
  main env st =
    MkRun (Returned tt) st (events (sendNewsletter None env st)).
Proof.
  destruct (sendNewsletter_cases None env st) as [Hst Hcases].
  assert (∃ b, value (sendNewsletter None env st) = Returned b) as [b Hv].
  { destruct Hcases as [[H _]|[[H _]|[H _]]]; eauto. }
  split.
  - unfold scheduledDelivery, tryCatch, bind.
    destruct (sendNewsletter None env st) as [v st' evs]. simpl in *.
    subst. by rewrite app_nil_r.
  - unfold main, tryCatch. unfold bind at 1.
    rewrite getNewsletterSubscribers_run.
    case_bool_decide as Hlen.
    + rewrite sendNewsletter_run. cbn zeta. unfold selectSubscribers. simpl.
      by rewrite bool_decide_eq_true_2.
    + unfold bind.
      destruct (sendNewsletter None env st) as [v st' evs]. simpl in *.
      subst. by rewrite app_nil_r.
Qed.

(** X24. The daily script exits with code 0 in every case, also when
    [sendNewsletter] resolved to [false] because the digest could not be
    prepared: the promise never rejects, so [process.exit(1)] is never
    reached. An empty command-line argument counts as none. *)
Theorem daily_script_always_exits_zero argv2 env st :
  value (dailyNewsletterScript argv2 env st) = Returned 0 ∧
  store (dailyNewsletterScript argv2 env st) = st ∧
  events (dailyNewsletterScript argv2 env st) =
    events (sendNewsletter (if truthy argv2 then argv2 else None) env st).
Proof.
  unfold dailyNewsletterScript, tryCatch, bind.
  destruct (sendNewsletter_cases (if truthy argv2 then argv2 else None) env st)
    as [Hst Hcases].
  assert (∃ b, value (sendNewsletter (if truthy argv2 then argv2 else None)
                        env st) = Returned b) as [b Hv].
  { destruct Hcases as [[H _]|[[H _]|[H _]]]; eauto. }
  destruct (sendNewsletter _ env st) as [v st' evs]. simpl in *.
  subst. by rewrite app_nil_r.
Qed.

(** ** A run for one address *)

(** With unique emails, the selection for the address of an active stored
    record is that record alone. *)
Lemma selectSubscribers_single (l : list Subscriber) sub :
  NoDup (email <$> l) →
  sub ∈ l →
  notInactive sub →
  email sub ≠ "" →
  selectSubscribers (Some (email sub)) (filter notInactive l) = [sub].
Proof.
  intros Hnd Hin Hact Hne. unfold selectSubscribers. simpl.
  rewrite bool_decide_eq_true_2 by done.
  induction l as [|x l IH]; [by apply elem_of_nil in Hin|].
  rewrite fmap_cons in Hnd. apply NoDup_cons in Hnd as [Hx Hnd].
  apply elem_of_cons in Hin as [->|Hin].
  - rewrite filter_cons_True by done. rewrite filter_cons_True by done.
    f_equal. destruct (filter _ (filter notInactive l)) as [|y rest] eqn:Hrest;
      [done|].
    assert (y ∈ filter (λ s, Some (email s) = Some (email x))
                  (filter notInactive l)) as Hy
      by (rewrite Hrest; apply list_elem_of_here).
    apply list_elem_of_filter in Hy as [[= Hsame] Hy].
    apply list_elem_of_filter in Hy as [_ Hy].
    destruct Hx. rewrite <- Hsame. by apply list_elem_of_fmap_2.
  - assert (email x ≠ email sub) as Hdiff.
    { intros Hsame. apply Hx. rewrite Hsame. by apply list_elem_of_fmap_2. }
    destruct (decide (notInactive x)).
    + rewrite (filter_cons_True notInactive) by done.
      rewrite filter_cons_False by (intros [=]; done). by apply IH.
    + rewrite (filter_cons_False notInactive) by done. by apply IH.
Qed.

(** X25. A run for one address: on a store with unique emails, outside test mode
    and with the digest and the transporter at hand, [sendNewsletter] with
    the address of an active stored subscriber hands exactly one message to
    the transport, the digest for that subscriber. *)
Theorem single_address_run env st sub page t :
  uniqueEmails st →
  sub ∈ stored st →
  isActive sub ≠ Some (JsBool false) →
  email sub ≠ "" →
  testMode env = false →
  newsletterHtml env = inr page →
  createTransport env = inr t →
  let r := sendNewsletter (Some (email sub)) env st in
  value r = Returned true ∧
  sentMails (events r) = [newsletterMail env page sub] ∧
  answers (events r) = [t 0 (newsletterMail env page sub)].
Proof.
  intros Hnd Hin Hact Hne Hmode Hpage Ht r. subst r.
  rewrite sendNewsletter_run. cbn zeta.
  rewrite (selectSubscribers_single _ sub Hnd Hin Hact Hne).
  rewrite bool_decide_eq_false_2 by done.
  unfold testModeRecipients. rewrite Hmode, Hpage, Ht. cbn [value events].
  rewrite sendEach_sentMails. split_and!; [done..|].
  rewrite sendEach_cons. cbn [events sendEach ret].
  rewrite app_nil_r. apply answers_turn.
Qed.

Lemma single_address_run_witness :
  uniqueEmails fiveMembers ∧
  member "r4@x.com" ∈ stored fiveMembers ∧
  to <$> sentMails (events
    (sendNewsletter (Some "r4@x.com") (liveEnv delivers) fiveMembers))
  = ["r4@x.com"].
Proof.
  assert (uniqueEmails fiveMembers) as Hnd by by_evaluation.
  assert (member "r4@x.com" ∈ stored fiveMembers) as Hin by by_evaluation.
  split_and!; [exact Hnd|exact Hin|].
  destruct (single_address_run (liveEnv delivers) fiveMembers
              (member "r4@x.com") "<html>digest</html>" delivers Hnd Hin
              ltac:(by_evaluation) ltac:(by_evaluation) eq_refl eq_refl eq_refl)
    as (_ & Hs & _).
  exact (f_equal (fmap to) Hs).
Defined.

(** ** A file that is missing or cannot be read *)

(** X26. [loadSubscribers] turns every failure to read or parse the file into an
    empty collection. So without a readable file: listing returns nothing,
    [sendNewsletter] does nothing and returns [true], [unsubscribeNewsletter]
    reports not found without writing, and [subscribeNewsletter], when the
    file can be written, replaces whatever was there by a collection holding
    the new record alone. *)
Theorem unreadable_file_counts_as_empty env :
  (∀ activeOnly,
     getNewsletterSubscribers activeOnly env None = MkRun (Returned []) None []) ∧
  (∀ specificEmail,
     sendNewsletter specificEmail env None = MkRun (Returned true) None []) ∧
  (∀ e, unsubscribeNewsletter e env None = MkRun (Returned notFound) None []) ∧
  (∀ params,
     writeFailure env = None →
     value (subscribeNewsletter params env None)
       = Returned (newSubscription params (now env) (now env)) ∧
     store (subscribeNewsletter params env None)
       = Some [newSubscription params (now env) (now env)]).
Proof.
  split_and!.
  - intros activeOnly. rewrite getNewsletterSubscribers_run. by destruct activeOnly.
  - intros specificEmail. rewrite sendNewsletter_run. cbn zeta.
    unfold selectSubscribers. simpl. by destruct (truthy specificEmail).
  - intros e. by rewrite unsubscribeNewsletter_run.
  - intros params Hw.
    by rewrite (subscribeNewsletter_new env None params eq_refl Hw).
Qed.

(** ** Subscribe, then list, through the routes *)

(** The subscribe route on an accepted email: the answer follows the
    outcome of the service. *)
Lemma subscribe_run body env st e :
  body_email body = Some e →
  regexTest emailRegex e = true →
  subscribe body env st =
  match subscribeNewsletter (subscribeArguments body) env st with
  | MkRun (Returned sub) st' evs =>
      MkRun (Returned
               {| status := 200;
                  json := JsonSubscribed "Successfully subscribed to newsletter"
                            sub |}) st' evs
  | MkRun (Thrown err) st' evs =>
      MkRun (Returned
               {| status := 500;
                  json := JsonFailure "Failed to subscribe to newsletter"
                            (errorMessage err) |}) st'
        (evs ++ [EvConsoleError "Newsletter subscription error:" err])
  end.
Proof.
  intros He Hre.
  assert (e ≠ "") as Hne by (by intros ->).
  unfold subscribe, tryCatch, subscribeArguments. rewrite He. simpl.
  rewrite bool_decide_eq_true_2 by done. simpl. rewrite Hre. simpl.
  unfold bind.
  destruct (subscribeNewsletter _ env st) as [[sub|err] st' evs]; simpl;
    by rewrite ?app_nil_r.
Qed.

(** X27. A subscribe request for an email that is not stored yet, answered 200,
    shows in the next answer of the subscribers route: the list holds a
    record of that email and the count is one more than the number of
    active records before. *)
Theorem subscribe_route_then_subscribers_route body env env' st e :
  body_email body = Some e →
  regexTest emailRegex e = true →
  e ∉ email <$> stored st →
  writeFailure env = None →
  ∃ sub subscribers,
    value (getSubscribers env' (store (subscribe body env st))) =
      Returned {| status := 200;
                  json := JsonSubscribers subscribers
                            (S (length (filter notInactive (stored st)))) |} ∧
    sub ∈ subscribers ∧
    email sub = e.
Proof.
  intros He Hre Hf%findIndex_None Hw.
  rewrite (subscribe_run body env st e He Hre).
  assert (p_email (subscribeArguments body) = e) as Hemail
    by (unfold subscribeArguments; by rewrite He).
  rewrite <- Hemail in Hf.
  rewrite (subscribeNewsletter_new env st _ Hf Hw). cbn zeta.
  set (sub := newSubscription (subscribeArguments body) (now env) (now env)).
  cbn [store].
  unfold getSubscribers, tryCatch, bind.
  rewrite getNewsletterSubscribers_run. cbn [value stored].
  rewrite filter_app, filter_cons_True, filter_nil by done.
  assert (length (filter notInactive (stored st) ++ [sub]) =
          S (length (filter notInactive (stored st)))) as Hlen
    by (rewrite length_app; simpl; lia).
  exists sub, (filter notInactive (stored st) ++ [sub]).
  split_and!; [by rewrite Hlen| |done].
  apply elem_of_app. right. apply list_elem_of_here.
Qed.

Lemma subscribe_route_then_subscribers_route_witness :
  regexTest emailRegex "cy@x.com" = true ∧
  ("cy@x.com" ∉ email <$> stored twoMembers) ∧
  ∃ subscribers,
    value (getSubscribers (laterEnv delivers)
      (store (subscribe
        {| body_email := Some "cy@x.com"; body_name := Some "Cy";
           body_topics := None; body_sources := None;
           body_frequency := None |} (liveEnv delivers) twoMembers))) =
    Returned {| status := 200; json := JsonSubscribers subscribers 3 |}.
Proof.
  assert ("cy@x.com" ∉ email <$> stored twoMembers) as Hf by by_evaluation.
  split_and!; [reflexivity|exact Hf|].
  destruct (subscribe_route_then_subscribers_route
              {| body_email := Some "cy@x.com"; body_name := Some "Cy";
                 body_topics := None; body_sources := None;
                 body_frequency := None |} (liveEnv delivers)
              (laterEnv delivers) twoMembers "cy@x.com"
              eq_refl eq_refl Hf eq_refl)
    as (sub & subscribers & Hv & _).
  exists subscribers. exact Hv.
Defined.
